(** * GSadjust network adjustment: [gsadjust/data/adjustment.py]

    A shallow embedding of the least-squares engine of GSadjust
    ([Adjustment.python_lsq_inversion], [Adjustment.lsq_statistics]) and of
    its reporter ([AdjustmentResults.get_report],
    [Adjustment.results_string]).

    Numbers.  The program computes with IEEE doubles through numpy.  The
    embedding idealises a finite double as a real number of the Standard
    Library (no rounding, no overflow, no signed zero) and keeps the three
    special values [inf], [-inf] and [nan], because numpy produces them
    without raising (division of an array by zero, square root or logarithm
    of a negative number).  Arrays that the linear algebra consumes hold
    finite values and are MathComp matrices over the field of reals.
    [numpy.linalg.inv] is the exact inverse on a matrix that has one.  On
    a matrix that has none it raises [LinAlgError] only when LAPACK's
    factorisation meets a pivot that is exactly zero, which rounding
    decides: that outcome is a parameter of the embedding ([lapack]).

    Effects.  A method mutates [self]; an exception leaves the fields
    assigned before it was raised.  Methods are computations in a state
    and exception monad over the record of the object. *)

From Stdlib Require Import Reals Lra Psatz ZArith Lia String Ascii List.
From Stdlib Require Import ClassicalEpsilon FunctionalExtensionality.
From Stdlib Require Import MVT.
From HB Require Import structures.
From mathcomp Require Import ssreflect ssrfun ssrbool eqtype ssrnat seq.
From mathcomp Require Import choice fintype bigop ssralg matrix.

Set Implicit Arguments.
Unset Strict Implicit.
Unset Printing Implicit Defensive.

Import GRing.Theory.

Delimit Scope R_scope with Re.
Local Open Scope ring_scope.

(* ===================================================================== *)
(** * The reals as a MathComp field                                        *)
(* ===================================================================== *)

(** MathComp's matrices, determinants and inverses ask for a [fieldType].
    The instances below equip the Standard Library's [R] with one; the
    operations are [Rplus], [Rmult], [Ropp] and [Rinv] themselves. *)

Definition eqr (x y : R) : bool := if Req_dec_T x y then true else false.

Lemma eqrP : Equality.axiom eqr.
Proof. by move=> x y; rewrite /eqr; case: Req_dec_T => h; constructor. Qed.

HB.instance Definition _ := hasDecEq.Build R eqrP.

Definition findr (p : pred R) (n : nat) : option R :=
  match excluded_middle_informative (exists x, p x) with
  | left ex => Some (proj1_sig (constructive_indefinite_description _ ex))
  | right _ => None
  end.

Lemma findr_correct (p : pred R) n x : findr p n = Some x -> p x.
Proof.
rewrite /findr; case: excluded_middle_informative => // ex [<-].
exact: (proj2_sig (constructive_indefinite_description _ ex)).
Qed.

Lemma findr_complete (p : pred R) : (exists x, p x) -> exists n, findr p n.
Proof.
by move=> ex; exists 0%N; rewrite /findr; case: excluded_middle_informative.
Qed.

Lemma findr_ext (p q : pred R) : p =1 q -> findr p =1 findr q.
Proof. by move=> /functional_extensionality ->. Qed.

HB.instance Definition _ :=
  hasChoice.Build R findr_correct findr_complete findr_ext.

Fact RplusA : associative Rplus.
Proof. by move=> x y z; rewrite Rplus_assoc. Qed.

HB.instance Definition _ :=
  GRing.isZmodule.Build R RplusA Rplus_comm Rplus_0_l Rplus_opp_l.

Fact RmultA : associative Rmult.
Proof. by move=> x y z; rewrite Rmult_assoc. Qed.

Fact Rmult_plus_l : left_distributive Rmult Rplus.
Proof. by move=> x y z; rewrite Rmult_plus_distr_r. Qed.

Fact R1_neq_0 : R1 != R0.
Proof. by apply/eqP; exact: R1_neq_R0. Qed.

HB.instance Definition _ :=
  GRing.Zmodule_isComNzRing.Build R
    RmultA Rmult_comm Rmult_1_l Rmult_plus_l R1_neq_0.

Fact RmultVr (x : R) : x != R0 -> Rmult (Rinv x) x = R1.
Proof. by move=> /eqP x0; rewrite Rinv_l. Qed.

Fact Rinv0 : Rinv R0 = R0.
Proof. exact: Rinv_0. Qed.

HB.instance Definition _ := GRing.ComNzRing_isField.Build R RmultVr Rinv0.

(** Boolean strict order on the reals, for the program's comparisons. *)
Definition Rltb (x y : R) : bool := if Rlt_dec x y then true else false.

(* ===================================================================== *)
(** * Python exceptions and results                                        *)
(* ===================================================================== *)

Inductive exn : Type :=
| ValueError          (* numpy: shapes not aligned, operands not broadcast *)
| LinAlgError         (* numpy.linalg: singular or non-square matrix *)
| ZeroDivisionError   (* Python float/int division by zero *)
| IndexError
| AttributeError
| TypeError.

Inductive result (T : Type) : Type :=
| Ok (x : T)
| Raise (e : exn).

Arguments Ok {T} x.
Arguments Raise {T} e.

Definition rbind {T U} (c : result T) (k : T -> result U) : result U :=
  match c with
  | Ok x => k x
  | Raise e => Raise e
  end.

Notation "x <~ c ;; k" := (rbind c (fun x => k))
  (at level 61, c at next level, right associativity).

Fixpoint mapM {T U} (f : T -> result U) (l : list T) : result (list U) :=
  match l with
  | nil => Ok nil
  | x :: l' => y <~ f x ;; ys <~ mapM f l' ;; Ok (y :: ys)
  end.

(* ===================================================================== *)
(** * numpy.float64 values                                                 *)
(* ===================================================================== *)

Module F64.

Local Open Scope R_scope.

Inductive float64 : Type :=
| Fin (x : R)
| PInf
| NInf
| NaN.

(** The infinity that has the sign of [x]; [nan] for zero. *)
Definition signed_inf (x : R) : float64 :=
  if Rlt_dec 0 x then PInf else if Rlt_dec x 0 then NInf else NaN.

Definition opp (a : float64) : float64 :=
  match a with
  | Fin x => Fin (- x)
  | PInf => NInf
  | NInf => PInf
  | NaN => NaN
  end.

Definition add (a b : float64) : float64 :=
  match a, b with
  | NaN, _ | _, NaN => NaN
  | Fin x, Fin y => Fin (x + y)
  | PInf, NInf | NInf, PInf => NaN
  | PInf, _ | _, PInf => PInf
  | NInf, _ | _, NInf => NInf
  end.

Definition sub (a b : float64) : float64 := add a (opp b).

Definition mul (a b : float64) : float64 :=
  match a, b with
  | NaN, _ | _, NaN => NaN
  | Fin x, Fin y => Fin (x * y)
  | PInf, Fin x | Fin x, PInf => signed_inf x
  | NInf, Fin x | Fin x, NInf => signed_inf (- x)
  | PInf, PInf | NInf, NInf => PInf
  | PInf, NInf | NInf, PInf => NaN
  end.

(** numpy's true division: a zero divisor gives [inf], [-inf] or [nan]
    (with a RuntimeWarning), never an exception. *)
Definition div (a b : float64) : float64 :=
  match a, b with
  | NaN, _ | _, NaN => NaN
  | Fin x, Fin y => if y == 0 then signed_inf x else Fin (x / y)
  | Fin _, _ => Fin 0
  | PInf, Fin y => if Rlt_dec y 0 then NInf else PInf
  | NInf, Fin y => if Rlt_dec y 0 then PInf else NInf
  | _, _ => NaN
  end.

Fixpoint pow (a : float64) (n : nat) : float64 :=
  match n with
  | O => Fin 1
  | S n' => mul a (pow a n')
  end.

(** [numpy.sqrt] *)
Definition sqrt (a : float64) : float64 :=
  match a with
  | Fin x => if Rlt_dec x 0 then NaN else Fin (R_sqrt.sqrt x)
  | PInf => PInf
  | NInf | NaN => NaN
  end.

(** [numpy.log] *)
Definition log (a : float64) : float64 :=
  match a with
  | Fin x => if Rlt_dec x 0 then NaN else if x == 0 then NInf else Fin (ln x)
  | PInf => PInf
  | NInf | NaN => NaN
  end.

(** [a < b]; every comparison with [nan] is false. *)
Definition lt (a b : float64) : bool :=
  match a, b with
  | NaN, _ | _, NaN => false
  | Fin x, Fin y => Rltb x y
  | _, NInf => false
  | PInf, _ => false
  | NInf, _ => true
  | Fin _, PInf => true
  end.

End F64.

Export F64(float64, Fin, PInf, NInf, NaN).

(** Python's [x / y] on floats raises on a zero divisor. *)
Definition py_truediv (x y : R) : result R :=
  if y == 0 then Raise ZeroDivisionError else Ok (x / y)%Re.

(** The position a Python index [i] denotes in a sequence of length [len]:
    negative indices count from the end. *)
Definition py_index (len : nat) (i : Z) : result nat :=
  if (0 <=? i)%Z && (i <? Z.of_nat len)%Z then Ok (Z.to_nat i)
  else if (- Z.of_nat len <=? i)%Z && (i <? 0)%Z
       then Ok (Z.to_nat (Z.of_nat len + i))
  else Raise IndexError.

(* ===================================================================== *)
(** * Two-dimensional numpy arrays                                         *)
(* ===================================================================== *)

(** A 2-D [ndarray]: its shape and its entries.  The shape is data, as in
    numpy: operations check it when they run and raise on a mismatch. *)
Record ndarray (T : Type) : Type := NdArray {
  nrows : nat;
  ncols : nat;
  data : 'M[T]_(nrows, ncols)
}.

Arguments NdArray {T nrows ncols} data.

(** A 1-D array is the sequence of its items. *)
Definition array1 (T : Type) : Type := seq T.

(** Entry [(i, j)] by natural indices; [d] outside the shape. *)
Definition mx_get {T} (d : T) {m n} (M : 'M[T]_(m, n)) (i j : nat) : T :=
  match insub i, insub j with
  | Some i', Some j' => M i' j'
  | _, _ => d
  end.

Definition amap {T U} (f : T -> U) (a : ndarray T) : ndarray U :=
  NdArray (map_mx f (data a)).

(** [numpy.transpose] of a 2-D array. *)
Definition np_transpose {T} (a : ndarray T) : ndarray T :=
  NdArray (data a)^T.

(** [a.dot(b)]: the matrix product; [ValueError] ("shapes not aligned")
    unless the columns of [a] are as many as the rows of [b]. *)
Definition dot (a b : ndarray R) : result (ndarray R) :=
  match @eqP _ (nrows b) (ncols a) with
  | ReflectT e => Ok (NdArray (data a *m castmx (e, erefl) (data b)))
  | ReflectF _ => Raise ValueError
  end.

(** What [numpy.linalg.inv] makes of a square matrix that has no inverse.
    numpy hands the matrix to LAPACK's [gesv], which factorises it in
    floating point, and raises [LinAlgError] only when a pivot is exactly
    zero; when rounding leaves a small pivot that is not zero, the call
    returns an array.  Which of the two happens depends on the rounding
    of the factorisation, which exact arithmetic does not decide: it is a
    parameter.  [None] stands for the exact zero pivot, [Some G] for the
    array [G] returned. *)
Definition lapack : Type := forall n : nat, 'M[R]_n -> option 'M[R]_n.

(** [numpy.linalg.inv]: [LinAlgError] on a matrix that is not square; the
    exact inverse of a matrix that has one; on a singular matrix, what
    the factorisation [gesv] makes of it. *)
Definition linalg_inv (gesv : lapack) (a : ndarray R) : result (ndarray R) :=
  match @eqP _ (ncols a) (nrows a) with
  | ReflectT e =>
      let M : 'M[R]_(nrows a) := castmx (erefl, e) (data a) in
      if M \in unitmx then Ok (NdArray (invmx M))
      else if gesv _ M is Some G then Ok (NdArray G)
      else Raise LinAlgError
  | ReflectF _ => Raise LinAlgError
  end.

(** Broadcasting of one dimension: equal lengths, or one of them is 1. *)
Definition bdim (m n : nat) : option nat :=
  if m == n then Some m
  else if m == 1%N then Some n
  else if n == 1%N then Some m
  else None.

(** The index read in a dimension of length [m] for the result index [i]. *)
Definition bidx (m i : nat) : nat := if m == 1%N then 0%N else i.

(** An elementwise binary operation with numpy's broadcasting;
    [ValueError] when the shapes cannot be broadcast together. *)
Definition broadcast {T U V} (dT : T) (dU : U) (op : T -> U -> V)
    (a : ndarray T) (b : ndarray U) : result (ndarray V) :=
  match bdim (nrows a) (nrows b), bdim (ncols a) (ncols b) with
  | Some m, Some n =>
      Ok (NdArray (\matrix_(i < m, j < n)
            op (mx_get dT (data a) (bidx (nrows a) i) (bidx (ncols a) j))
               (mx_get dU (data b) (bidx (nrows b) i) (bidx (ncols b) j))))
  | _, _ => Raise ValueError
  end.

(** [a - b] on arrays of finite values. *)
Definition np_subtract (a b : ndarray R) : result (ndarray R) :=
  broadcast 0%Re 0%Re Rminus a b.

(** [a * v]: elementwise product of an array of finite values with an
    array that may hold special values. *)
Definition np_multiply (a : ndarray R) (v : ndarray float64)
    : result (ndarray float64) :=
  broadcast 0%Re NaN (fun x y => F64.mul (Fin x) y) a v.

(** [a / d] for an array [a] and a Python int [d]: numpy's elementwise
    true division, which does not raise when [d] is zero. *)
Definition np_divide_int (a : ndarray R) (d : Z) : ndarray float64 :=
  amap (fun x => F64.div (Fin x) (Fin (IZR d))) a.

(** [numpy.sqrt] of an array. *)
Definition np_sqrt (a : ndarray float64) : ndarray float64 :=
  amap F64.sqrt a.

(** [numpy.diagonal] of a 2-D array: the 1-D array of the entries
    [a[i][i]], as long as the smaller dimension. *)
Definition np_diagonal {T} (d : T) (a : ndarray T) : array1 T :=
  mkseq (fun i => mx_get d (data a) i i) (minn (nrows a) (ncols a)).

(** [a[i][j]] with Python integers. *)
Definition getitem2 {T} (d : T) (a : ndarray T) (i j : Z) : result T :=
  i' <~ py_index (nrows a) i ;;
  j' <~ py_index (ncols a) j ;;
  Ok (mx_get d (data a) i' j').

(* ===================================================================== *)
(** * Formatted text                                                       *)
(* ===================================================================== *)

(** A line of the report before Python renders it: literal text and the
    replacement fields of the f-string or of [str.format], each with its
    format specification and the value it shows. *)
Inductive piece : Type :=
| Lit (s : string)
| FmtZ (spec : string) (z : Z)        (* a Python int, e.g. [{:d}] *)
| FmtF (spec : string) (x : float64). (* a float, e.g. [{:6.2f}] *)

Definition line : Type := seq piece.

(** ['\n'] *)
Definition newline : string := String (ascii_of_nat 10) EmptyString.

(** The micro sign of the drift unit, in UTF-8. *)
Definition micro : string :=
  String (ascii_of_nat 194) (String (ascii_of_nat 181) EmptyString).

(** Whether a line starts with the literal text [s]. *)
Definition starts_with (s : string) (l : line) : bool :=
  if l is Lit s' :: _ then String.eqb s s' else false.

(* ===================================================================== *)
(** * Observations                                                         *)
(* ===================================================================== *)

(** Modelled from the spec: the class [Delta] of [data_objects] is not in
    the sources at hand.  A relative-gravity difference between two station
    occupations: a measured difference, an uncertainty and an inclusion
    flag. *)
Record Delta : Type := mkDelta {
  delta_sta1 : string;
  delta_sta2 : string;
  delta_dg : R;
  delta_sd : R;
  delta_checked : bool
}.

(** Modelled from the spec: the class [Datum] is not in the sources at
    hand.  An absolute gravity value tied to one station. *)
Record Datum : Type := mkDatum {
  datum_station : string;
  datum_g : R;
  datum_sd : R;
  datum_checked : bool
}.

(* ===================================================================== *)
(** * class AdjustmentOptions                                              *)
(* ===================================================================== *)

Module AdjustmentOptions.

Record t : Type := mk {
  use_sigma_prefactor : bool;
  sigma_prefactor : R;
  use_sigma_postfactor : bool;
  sigma_postfactor : R;
  use_sigma_add : bool;
  sigma_add : R;
  use_sigma_min : bool;
  sigma_min : R;
  alpha : R;
  cal_coeff : bool;
  adj_type : string;
  specify_cal_coeff : bool;
  meter_cal_dict : option (seq (string * R))
}.

(** [__init__] *)
Definition init : t :=
  mk false 1%Re false 1%Re false 0%Re false 3%Re (5 / 100)%Re
     false "gravnet" false None.

End AdjustmentOptions.

(* ===================================================================== *)
(** * class AdjustmentResults                                              *)
(* ===================================================================== *)

Module AdjustmentResults.

Local Open Scope string_scope.

(** The attributes of the object.  [dof] and [meter_cal_dict] are read by
    the methods but not assigned by [__init__]: they are [None] here while
    the object has no such attribute.  The statistics are numpy floats:
    [lsq_statistics] stores [chi2] as one on the line before it creates
    [dof], so [get_report] never divides the integer 0 of [__init__]. *)
Record t : Type := mk {
  n_deltas : Z;
  n_deltas_notused : Z;
  n_datums : Z;
  n_datums_notused : Z;
  n_unknowns : Z;
  max_dg_residual : float64;
  min_dg_residual : float64;
  max_datum_residual : float64;
  min_datum_residual : float64;
  avg_stdev : float64;
  chi2 : float64;
  chi2c : float64;
  cal_dic : seq (string * (R * R));
  netadj_drift_dic : seq (string * seq R);
  text : seq string;
  dof : option Z;
  meter_cal_dict : option (seq (string * R))
}.

(** [__init__].  It sets the statistics to the Python integer 0, held
    here as the float 0.0: the two compare and print alike, and differ
    only in [chi2 / dof] at [dof = 0]; [dof], which that division needs,
    is created by [lsq_statistics] on the line after it has replaced
    [chi2] by a numpy float. *)
Definition init : t :=
  mk 0 0 0 0 0 (Fin 0) (Fin 0) (Fin 0) (Fin 0) (Fin 0) (Fin 0) (Fin 0)
     [::] [::] [::] None None.

Definition set_chi2 (v : float64) (s : t) : t :=
  mk (n_deltas s) (n_deltas_notused s) (n_datums s) (n_datums_notused s)
     (n_unknowns s) (max_dg_residual s) (min_dg_residual s)
     (max_datum_residual s) (min_datum_residual s) (avg_stdev s)
     v (chi2c s) (cal_dic s) (netadj_drift_dic s) (text s) (dof s)
     (meter_cal_dict s).

Definition set_chi2c (v : float64) (s : t) : t :=
  mk (n_deltas s) (n_deltas_notused s) (n_datums s) (n_datums_notused s)
     (n_unknowns s) (max_dg_residual s) (min_dg_residual s)
     (max_datum_residual s) (min_datum_residual s) (avg_stdev s)
     (chi2 s) v (cal_dic s) (netadj_drift_dic s) (text s) (dof s)
     (meter_cal_dict s).

Definition set_dof (d : Z) (s : t) : t :=
  mk (n_deltas s) (n_deltas_notused s) (n_datums s) (n_datums_notused s)
     (n_unknowns s) (max_dg_residual s) (min_dg_residual s)
     (max_datum_residual s) (min_datum_residual s) (avg_stdev s)
     (chi2 s) (chi2c s) (cal_dic s) (netadj_drift_dic s) (text s) (Some d)
     (meter_cal_dict s).

(** Reading an attribute that the object may lack. *)
Definition getattr {T} (a : option T) : result T :=
  if a is Some v then Ok v else Raise AttributeError.

(** The verdict of the chi-square test, line 47. *)
Definition chi_result (self : t) : string :=
  if F64.lt (chi2 self) (chi2c self) then "accepted" else "rejected".

(** [get_report] *)
Definition get_report (self : t) : result (seq line) :=
  let chi_result := chi_result self in
  d <~ getattr (dof self) ;;
  Ok [::
    [:: Lit "Number of unknowns:                  ";
        FmtZ "d" (n_unknowns self)];
    [:: Lit "Number of relative observations:     ";
        FmtZ "d" (n_deltas self)];
    [:: Lit "Number of absolute observations:     ";
        FmtZ "d" (n_datums self)];
    [:: Lit "Degrees of freedom (nobs-nunknowns): "; FmtZ "d" d];
    [:: Lit "SD a posteriori:                     ";
        FmtF "4f" (F64.div (chi2 self) (Fin (IZR d)))];
    [:: Lit "chi square value:                  "; FmtF "6.2f" (chi2 self)];
    [:: Lit "critical chi square value:         "; FmtF "6.2f" (chi2c self)];
    [:: Lit ("Chi-test " ++ chi_result)];
    [:: Lit "Average standard deviation:          ";
        FmtF ".2f" (avg_stdev self)];
    [:: Lit "Maximum delta residual:              ";
        FmtF ".2f" (max_dg_residual self)];
    [:: Lit "Maximum absolute datum residual:     ";
        FmtF ".2f" (max_datum_residual self)];
    [:: Lit "Minimum absolute datum residual:     ";
        FmtF ".2f" (min_datum_residual self)]
  ].

End AdjustmentResults.

(* ===================================================================== *)
(** * class Adjustment                                                     *)
(* ===================================================================== *)

Module Adjustment.

Local Open Scope string_scope.

(** The attributes of the object.  [A], [P], [Obs], [S], [X], [r] and
    [VtPV] hold 2-D arrays of finite values: the program indexes them as
    [X[i][0]] and [VtPV[0][0]].  The empty 1-D arrays of [__init__] stand
    for "not built yet" and are outside this type; the methods below run
    on an object whose matrices the builder has assigned. *)
Record t : Type := mk {
  A : ndarray R;
  P : ndarray R;
  Obs : ndarray R;
  S : ndarray R;
  X : ndarray R;
  r : ndarray R;
  var : array1 float64;
  VtPV : ndarray R;
  SDaposteriori : ndarray float64;
  dof : Z;
  n_meters : Z;
  meter_dic : seq (string * Z);
  deltas : seq Delta;
  datums : seq Datum;
  g_dic : seq (string * R);
  sd_dic : seq (string * R);
  netadj_loop_keys : seq (string * (Z * Z));
  sta_dic_ls : seq (string * Z);
  adjustmentoptions : AdjustmentOptions.t;
  adjustmentresults : AdjustmentResults.t
}.

Definition set_X (v : ndarray R) (s : t) : t :=
  mk (A s) (P s) (Obs s) (S s) v (r s) (var s) (VtPV s) (SDaposteriori s)
     (dof s) (n_meters s) (meter_dic s) (deltas s) (datums s) (g_dic s)
     (sd_dic s) (netadj_loop_keys s) (sta_dic_ls s) (adjustmentoptions s)
     (adjustmentresults s).

Definition set_r (v : ndarray R) (s : t) : t :=
  mk (A s) (P s) (Obs s) (S s) (X s) v (var s) (VtPV s) (SDaposteriori s)
     (dof s) (n_meters s) (meter_dic s) (deltas s) (datums s) (g_dic s)
     (sd_dic s) (netadj_loop_keys s) (sta_dic_ls s) (adjustmentoptions s)
     (adjustmentresults s).

Definition set_var (v : array1 float64) (s : t) : t :=
  mk (A s) (P s) (Obs s) (S s) (X s) (r s) v (VtPV s) (SDaposteriori s)
     (dof s) (n_meters s) (meter_dic s) (deltas s) (datums s) (g_dic s)
     (sd_dic s) (netadj_loop_keys s) (sta_dic_ls s) (adjustmentoptions s)
     (adjustmentresults s).

Definition set_VtPV (v : ndarray R) (s : t) : t :=
  mk (A s) (P s) (Obs s) (S s) (X s) (r s) (var s) v (SDaposteriori s)
     (dof s) (n_meters s) (meter_dic s) (deltas s) (datums s) (g_dic s)
     (sd_dic s) (netadj_loop_keys s) (sta_dic_ls s) (adjustmentoptions s)
     (adjustmentresults s).

Definition set_SDaposteriori (v : ndarray float64) (s : t) : t :=
  mk (A s) (P s) (Obs s) (S s) (X s) (r s) (var s) (VtPV s) v
     (dof s) (n_meters s) (meter_dic s) (deltas s) (datums s) (g_dic s)
     (sd_dic s) (netadj_loop_keys s) (sta_dic_ls s) (adjustmentoptions s)
     (adjustmentresults s).

Definition set_adjustmentresults (v : AdjustmentResults.t) (s : t) : t :=
  mk (A s) (P s) (Obs s) (S s) (X s) (r s) (var s) (VtPV s)
     (SDaposteriori s) (dof s) (n_meters s) (meter_dic s) (deltas s)
     (datums s) (g_dic s) (sd_dic s) (netadj_loop_keys s) (sta_dic_ls s)
     (adjustmentoptions s) v.

(** ** Methods that assign to [self]

    A computation takes the object and returns the object as the method
    left it, with the value returned or the exception raised. *)
Definition M (T : Type) : Type := t -> t * result T.

Definition ret {T} (x : T) : M T := fun s => (s, Ok x).

Definition bind {T U} (c : M T) (k : T -> M U) : M U :=
  fun s =>
    let: (s', res) := c s in
    match res with
    | Ok x => k x s'
    | Raise e => (s', Raise e)
    end.

(** The value of an expression that may raise. *)
Definition lift {T} (c : result T) : M T := fun s => (s, c).

(** [self] *)
Definition get : M t := fun s => (s, Ok s).

(** An assignment [self.f = v]. *)
Definition assign (f : t -> t) : M unit := fun s => (f s, Ok tt).

Notation "x <- c ;; k" := (bind c (fun x => k))
  (at level 61, c at next level, right associativity).
Notation "c ;;; k" := (bind c (fun _ => k))
  (at level 61, right associativity).

(** [python_lsq_inversion], lines 214-231, with the factorisation [gesv]
    that [numpy.linalg.inv] runs. *)
Definition python_lsq_inversion (gesv : lapack) : M unit :=
  self <- get ;;
  let At := np_transpose (A self) in
  N <- lift (t1 <~ dot At (P self) ;; dot t1 (A self)) ;;
  x <- lift (Ninv <~ linalg_inv gesv N ;;
             t1 <~ dot Ninv At ;;
             t2 <~ dot t1 (P self) ;;
             dot t2 (Obs self)) ;;
  assign (set_X x) ;;;
  self <- get ;;
  res <- lift (t1 <~ dot (A self) (X self) ;; np_subtract t1 (Obs self)) ;;
  assign (set_r res) ;;;
  self <- get ;;
  let rt := np_transpose (r self) in
  v <- lift (t1 <~ dot rt (P self) ;; dot t1 (r self)) ;;
  assign (set_VtPV v) ;;;
  self <- get ;;
  let var_post_norm := np_divide_int (VtPV self) (dof self) in
  assign (set_SDaposteriori (np_sqrt var_post_norm)) ;;;
  cov_post <- lift (Ninv <~ linalg_inv gesv N ;;
                    np_multiply Ninv var_post_norm) ;;
  assign (set_var (np_diagonal NaN cov_post)).

(** The decimal constants of the rational approximation, lines 241-242. *)
Definition c0 : R := (2515517 / 1000000)%Re.
Definition c1 : R := (802853 / 1000000)%Re.
Definition c2 : R := (10328 / 1000000)%Re.
Definition d1 : R := (1432788 / 1000000)%Re.
Definition d2 : R := (189269 / 1000000)%Re.
Definition d3 : R := (1308 / 1000000)%Re.

(** [lsq_statistics], lines 233-247.  [1 / alpha] and [2 / (9 * dof)] are
    divisions of Python floats and raise on zero; [np.log] and [np.sqrt]
    return numpy floats. *)
Definition lsq_statistics : M unit :=
  self <- get ;;
  let alpha := AdjustmentOptions.alpha (adjustmentoptions self) in
  v <- lift (getitem2 0%Re (VtPV self) 0 0) ;;
  assign (fun s => set_adjustmentresults
            (AdjustmentResults.set_chi2 (Fin v) (adjustmentresults s)) s) ;;;
  self <- get ;;
  assign (fun s => set_adjustmentresults
            (AdjustmentResults.set_dof (dof self) (adjustmentresults s)) s) ;;;
  q <- lift (py_truediv 1 alpha) ;;
  let t := F64.sqrt (F64.mul (Fin 2) (F64.log (Fin q))) in
  let chi_1_alpha :=
    F64.sub t
      (F64.div
         (F64.add (F64.add (Fin c0) (F64.mul (Fin c1) t))
                  (F64.mul (Fin c2) (F64.pow t 2)))
         (F64.add (F64.add (F64.add (Fin 1) (F64.mul (Fin d1) t))
                           (F64.mul (Fin d2) (F64.pow t 2)))
                  (F64.mul (Fin d3) (F64.pow t 3)))) in
  self <- get ;;
  let dof := IZR (dof self) in
  q1 <- lift (py_truediv 2 (9 * dof)%Re) ;;
  q2 <- lift (py_truediv 2 (9 * dof)%Re) ;;
  assign (fun s => set_adjustmentresults
            (AdjustmentResults.set_chi2c
               (F64.mul (Fin dof)
                  (F64.pow
                     (F64.sub
                        (F64.add (F64.mul chi_1_alpha (F64.sqrt (Fin q1)))
                                 (Fin 1))
                        (Fin q2))
                     3))
               (adjustmentresults s)) s).

(** What [results_string] returns: a list of lines, the empty string of
    the [except] clause, or [None] when no branch returns. *)
Inductive retval : Type :=
| Lines (l : seq line)
| EmptyStr
| PyNone.

(** Lines 169-173 *)
Definition cal_line (kv : string * (R * R)) : line :=
  [:: Lit "Calibration coefficient for meter "; Lit kv.1; Lit ": ";
      FmtF ".6f" (Fin kv.2.1); Lit " +/- "; FmtF ".6f" (Fin kv.2.2)].

(** Lines 176-180 *)
Definition specified_line (kv : string * R) : line :=
  [:: Lit "Specified calibration coefficient for meter "; Lit kv.1;
      Lit ": "; FmtF ".6f" (Fin kv.2)].

(** Lines 188-202: the line of the [i]-th drift coefficient of a loop
    whose coefficients start at offset [start] behind the stations and the
    meters in [X]. *)
Definition drift_line (self : t) (start : Z) (i : nat) : result line :=
  degree <~ getitem2 0%Re (X self)
              (Z.of_nat (size (sta_dic_ls self)) + n_meters self + start
               + Z.of_nat i)%Z 0 ;;
  Ok (if degree == 1%Re
      then [:: Lit "Drift coefficient, degree "; FmtZ "" (Z.of_nat i + 1);
               Lit ": "; FmtF ".3f" (Fin degree)]
      else [:: Lit "Drift coefficient, degree "; FmtZ "" (Z.of_nat i + 1);
               Lit ": "; FmtF ".3f" (Fin degree);
               Lit (" (" ++ micro ++ "Gal/day)")]).

(** Lines 183-202: the lines of one loop. *)
Definition loop_lines (self : t) (loop : string * (Z * Z))
    : result (seq line) :=
  ls <~ mapM (drift_line self loop.2.1) (iota 0 (Z.to_nat loop.2.2)) ;;
  Ok ([:: Lit ("Loop " ++ loop.1 ++ ": ")] :: ls).

(** The body of the [try] statement, lines 160-203. *)
Definition results_string_body (self : t) : result retval :=
  let res := adjustmentresults self in
  let opts := adjustmentoptions self in
  if AdjustmentResults.text res is _ :: _ then
    Ok (Lines [seq [:: Lit (x ++ newline)] | x <- AdjustmentResults.text res])
  else if (0 <? AdjustmentResults.n_unknowns res)%Z then
    text_out <~ AdjustmentResults.get_report res ;;
    text_out <~
      (if AdjustmentOptions.cal_coeff opts then
         Ok (cat text_out (map cal_line (AdjustmentResults.cal_dic res)))
       else if AdjustmentOptions.specify_cal_coeff opts then
         d <~ AdjustmentResults.getattr
                (AdjustmentResults.meter_cal_dict res) ;;
         Ok (cat text_out (map specified_line d))
       else Ok text_out) ;;
    text_out <~
      (if netadj_loop_keys self is _ :: _ then
         ls <~ mapM (loop_lines self) (netadj_loop_keys self) ;;
         Ok (cat text_out
               ([:: Lit "Network adjustment drift coefficient(s):"]
                  :: flatten ls))
       else Ok text_out) ;;
    Ok (Lines text_out)
  else Ok PyNone.

(** [results_string], lines 158-205: [AttributeError] and [TypeError] are
    caught and give ['']; other exceptions propagate. *)
Definition results_string (self : t) : result retval :=
  match results_string_body self with
  | Raise AttributeError | Raise TypeError => Ok EmptyStr
  | res => res
  end.

End Adjustment.

(* ===================================================================== *)
(** * The quantities the specification names                               *)
(* ===================================================================== *)

Section LeastSquares.

Variables (n k q : nat).
Variables (MA : 'M[R]_(n, k)) (MP : 'M[R]_n) (MObs : 'M[R]_(n, q)).

(** [N = A^T P A] *)
Definition normal_matrix : 'M[R]_k := MA^T *m MP *m MA.

(** [X = N^-1 A^T P Obs] *)
Definition lsq_solution : 'M[R]_(k, q) :=
  invmx normal_matrix *m (MA^T *m (MP *m MObs)).

(** [r = A X - Obs] *)
Definition lsq_residual : 'M[R]_(n, q) := MA *m lsq_solution - MObs.

End LeastSquares.

Section ChiSquare.

Local Open Scope R_scope.

(** The fraction subtracted from [t] in the approximation of the normal
    deviate. *)
Definition rational_tail (t : R) : R :=
  (2515517 / 1000000 + 802853 / 1000000 * t + 10328 / 1000000 * t ^ 2)
  / (1 + 1432788 / 1000000 * t + 189269 / 1000000 * t ^ 2
     + 1308 / 1000000 * t ^ 3).

(** [z = t - (...)/(...)] with [t = sqrt(2 ln(1/alpha))] *)
Definition normal_deviate (alpha : R) : R :=
  let t := sqrt (2 * ln (1 / alpha)) in t - rational_tail t.

(** [dof (z sqrt(2/(9 dof)) + 1 - 2/(9 dof))^3] *)
Definition wilson_hilferty (z dof : R) : R :=
  dof * (z * sqrt (2 / (9 * dof)) + 1 - 2 / (9 * dof)) ^ 3.

Definition chi2_critical (alpha dof : R) : R :=
  wilson_hilferty (normal_deviate alpha) dof.

(** [z s + 1 - s^2], the cubed factor as a function of [s = sqrt(2/(9 dof))]. *)
Definition wh_base (z s : R) : R := z * s + 1 - s ^ 2.

End ChiSquare.

(** The critical value an adjustment holds once [lsq_statistics] has run. *)
Definition chi2c_after (a : Adjustment.t) : float64 :=
  AdjustmentResults.chi2c
    (Adjustment.adjustmentresults (Adjustment.lsq_statistics a).1).

(** Whether an array has the entry [[0][0]] that [lsq_statistics] reads. *)
Definition has_scalar (v : ndarray R) : bool :=
  (0 < nrows v)%N && (0 < ncols v)%N.

(** The line of the report that carries the verdict. *)
Definition chi_line (verdict : string) : line :=
  [:: Lit (String.append "Chi-test " verdict)].

Definition sd_label : string := "SD a posteriori:                     ".

Definition cal_prefix : string := "Calibration coefficient for meter ".

Definition specified_prefix : string :=
  "Specified calibration coefficient for meter ".

(** A line of one of the two calibration modes. *)
Definition is_calibration (l : line) : bool :=
  starts_with cal_prefix l || starts_with specified_prefix l.

(** The lines [results_string] returned, if it returned lines. *)
Definition lines_of (res : result Adjustment.retval) : seq line :=
  if res is Ok (Adjustment.Lines ls) then ls else [::].

(* ===================================================================== *)
(** * Small networks                                                       *)
(* ===================================================================== *)

(** [np.array(rows)] with the shape given. *)
Definition np_array (m n : nat) (rows : seq (seq R)) : ndarray R :=
  @NdArray R m n (\matrix_(i, j) nth 0%Re (nth [::] rows i) j).

(** An output attribute before any inversion. *)
Definition unset : ndarray R := np_array 0 0 [::].
Definition unset64 : ndarray float64 := amap Fin unset.

(** An adjustment with the given system, statistics and options; the
    bookkeeping attributes are empty. *)
Definition network (A P Obs X r VtPV : ndarray R) (dof : Z)
    (opts : AdjustmentOptions.t) (res : AdjustmentResults.t)
    : Adjustment.t :=
  Adjustment.mk A P Obs unset X r [::] VtPV unset64 dof 0 [::] [::] [::]
    [::] [::] [::] [::] opts res.

(** Options with significance level [alpha] and the two calibration
    flags. *)
Definition options (alpha : R) (cal specify : bool) : AdjustmentOptions.t :=
  AdjustmentOptions.mk false 1%Re false 1%Re false 0%Re false 3%Re alpha
    cal "numpy" specify None.

(** One station observed twice (10 and 12, unit weights): two
    observations, one unknown. *)
Definition station_A : 'M[R]_(2, 1) := const_mx 1%Re.
Definition station_P : 'M[R]_2 := 1%:M.
Definition station_Obs : 'cV[R]_2 := \col_i (if i == ord0 then 10 else 12)%Re.

Definition one_station : Adjustment.t :=
  network (NdArray station_A) (NdArray station_P) (NdArray station_Obs)
    unset unset unset 1 AdjustmentOptions.init AdjustmentResults.init.

(** A factorisation without rounding: every singular matrix meets a
    pivot that is exactly zero. *)
Definition exact_pivot : lapack := fun _ _ => None.

(** A factorisation in which rounding hides the singularity: no pivot is
    exactly zero and an array of large values is returned (in double
    precision the last pivot of the normal matrix of [no_datum] below is
    about 4.4e-16 and the values returned are about 4.5e17). *)
Definition rounded_pivot : lapack :=
  fun n _ => Some (const_mx (45 * 10 ^ 16)%Re).

(** One unknown that no observation touches: the column of [A] is zero. *)
Definition unobserved : Adjustment.t :=
  network (NdArray (0 : 'M[R]_(2, 1))) (NdArray station_P)
    (NdArray station_Obs) unset unset unset 1
    AdjustmentOptions.init AdjustmentResults.init.

(** Three stations tied by four differences, the first pair twice, and no
    datum (unit weights, [dof = 1]): the values are determined up to a
    constant, and the normal matrix
    [[[3, -2, -1], [-2, 3, -1], [-1, -1, 2]]] is singular. *)
Definition no_datum_A : 'M[R]_(4, 3) :=
  \matrix_(i, j)
    nth 0%Re (nth [::] [:: [:: -1; 1; 0]; [:: -1; 1; 0]; [:: -1; 0; 1];
                          [:: 0; -1; 1]]%Re i) j.

Definition no_datum_Obs : 'cV[R]_4 :=
  \col_i nth 0%Re [:: 10; 11; 25; 14]%Re i.

Definition no_datum : Adjustment.t :=
  network (NdArray no_datum_A) (NdArray (1%:M : 'M[R]_4))
    (NdArray no_datum_Obs) unset unset unset 1
    AdjustmentOptions.init AdjustmentResults.init.

(** Two stations, one difference (B - A = 10, sd 1) and one datum
    (A = 980000, sd 0.5), after the inversion: the fit is exact and there
    is no degree of freedom. *)
Definition two_stations : Adjustment.t :=
  network
    (np_array 2 2 [:: [:: -1; 1]; [:: 1; 0]]%Re)
    (np_array 2 2 [:: [:: 1; 0]; [:: 0; 4]]%Re)
    (np_array 2 1 [:: [:: 10]; [:: 980000]]%Re)
    (np_array 2 1 [:: [:: 980000]; [:: 980010]]%Re)
    (np_array 2 1 [:: [:: 0]; [:: 0]]%Re)
    (np_array 1 1 [:: [:: 0]]%Re)
    0 AdjustmentOptions.init AdjustmentResults.init.

(** An adjustment that only carries what [lsq_statistics] reads. *)
Definition solved (VtPV : R) (dof : Z) (alpha : R) : Adjustment.t :=
  network unset unset unset unset unset (np_array 1 1 [:: [:: VtPV]]) dof
    (options alpha false false) AdjustmentResults.init.

(** Results of a solved adjustment with one meter. *)
Definition meter_results (chi2 chi2c : float64) (dof : option Z)
    (specified : option (seq (string * R))) : AdjustmentResults.t :=
  AdjustmentResults.mk 3 0 1 0 3 (Fin 0) (Fin 0) (Fin 0) (Fin 0) (Fin 0)
    chi2 chi2c [:: ("B44"%string, (1, 1 / 1000)%Re)] [::] [::] dof specified.

(** A solved adjustment with one meter and the two calibration flags. *)
Definition calibrated (cal specify : bool) : Adjustment.t :=
  network unset unset unset unset unset unset 1
    (options (5 / 100)%Re cal specify)
    (meter_results (Fin 2) (Fin 4) (Some 1%Z)
       (Some [:: ("B44"%string, 1%Re)])).

(* ===================================================================== *)
(** * class AdjustedStation and the table of adjusted stations             *)
(* ===================================================================== *)

(** Whether a float is a number: not [inf], [-inf] or [nan]
    ([numpy.isfinite]). *)
Definition is_finite (a : float64) : bool :=
  if a is Fin _ then true else false.

Module AdjustedStation.

Local Open Scope string_scope.

(** [__init__] stores its three arguments. *)
Record t : Type := mk {
  station : string;
  g : float64;
  sd : float64
}.

(** [__str__], line 77 *)
Definition str (self : t) : line :=
  [:: Lit (station self); Lit " "; FmtF "0.2f" (g self); Lit " ";
      FmtF "0.2f" (sd self)].

End AdjustedStation.

(** The outcome of [d[k]] on a dict: the value, or [KeyError] with the
    key that is missing. *)
Inductive keyed (T : Type) : Type :=
| Value (x : T)
| KeyError (k : string).

Arguments Value {T} x.
Arguments KeyError {T} k.

(** [d[k]] on a dict held as the list of its items. *)
Fixpoint dict_getitem {T} (d : seq (string * T)) (k : string) : keyed T :=
  if d is kv :: d' then
    if String.eqb kv.1 k then Value kv.2 else dict_getitem d' k
  else KeyError k.

(** [d.get(k, default)] *)
Definition dict_get {T} (d : seq (string * T)) (k : string) (default : T)
    : T :=
  if dict_getitem d k is Value v then v else default.

(** [k in d] *)
Definition dict_contains {T} (d : seq (string * T)) (k : string) : bool :=
  has (fun kv => String.eqb kv.1 k) d.

(** The loop of [adjustment_gdic_str], lines 210-211, from the text
    [return_str] built so far. *)
Fixpoint gdic_loop (sd_dic : seq (string * R)) (return_str : line)
    (items : seq (string * R)) : keyed line :=
  if items is kv :: items' then
    match dict_getitem sd_dic kv.1 with
    | Value sd =>
        gdic_loop sd_dic
          (return_str ++ [:: Lit kv.1; Lit " "%string; FmtF "0.2f" (Fin kv.2);
                             Lit " "%string; FmtF "0.2f" (Fin sd);
                             Lit newline])
          items'
    | KeyError k => KeyError k
    end
  else Value return_str.

(** The text of one station of [g_dic], as [AdjustedStation] prints it,
    and the end of the line; 0 stands for a standard deviation that
    [sd_dic] does not have. *)
Definition station_row (sd_dic : seq (string * R)) (kv : string * R) : line :=
  rcons (AdjustedStation.str
           (AdjustedStation.mk kv.1 (Fin kv.2)
              (Fin (dict_get sd_dic kv.1 0%Re))))
        (Lit newline).

(** The property [adjustment_gdic_str] of [Adjustment], lines 207-212: the
    text before rendering. *)
Definition adjustment_gdic_str (self : Adjustment.t) : keyed line :=
  gdic_loop (Adjustment.sd_dic self) [::] (Adjustment.g_dic self).

(** The lines that the calibration coefficients add to the report. *)
Definition cal_count (a : Adjustment.t) : nat :=
  let res := Adjustment.adjustmentresults a in
  let opts := Adjustment.adjustmentoptions a in
  if AdjustmentOptions.cal_coeff opts
  then size (AdjustmentResults.cal_dic res)
  else if AdjustmentOptions.specify_cal_coeff opts
       then size (odflt [::] (AdjustmentResults.meter_cal_dict res))
       else 0%N.

(** Line [i + 1] of a loop in the report, for the coefficient [v]. *)
Definition drift_entry (i : nat) (v : R) : line :=
  cat [:: Lit "Drift coefficient, degree "%string;
          FmtZ ""%string (Z.of_nat i + 1); Lit ": "%string;
          FmtF ".3f"%string (Fin v)]
      (if v == 1%Re then [::]
       else [:: Lit (" (" ++ micro ++ "Gal/day)")%string]).

(* ===================================================================== *)
(** * gui/tabs/drift.py: the static methods of [TabDrift]                  *)
(* ===================================================================== *)

(** A [for] loop over [l] whose body [f] may raise, from the state [s]. *)
Fixpoint foldM {S T} (f : S -> T -> result S) (s : S) (l : seq T)
    : result S :=
  if l is x :: l' then s' <~ f s x ;; foldM f s' l' else Ok s.

(** [l[i]] on a list, for [i >= 0]. *)
Definition list_getitem {T} (d : T) (l : seq T) (i : nat) : result T :=
  if (i < size l)%N then Ok (nth d l i) else Raise IndexError.

(** [l[i] = v] on a list, for [i >= 0]. *)
Definition list_setitem {T} (d : T) (l : seq T) (i : nat) (v : T)
    : result (seq T) :=
  if (i < size l)%N then Ok (set_nth d l i v) else Raise IndexError.

Section ScreenForElapsedTime.

(** What a plotted line carries beside its points ([line[2]]). *)
Variable label : Type.

(** An item of [plot_data]: [[x, y, name]], times in days. *)
Definition plot_line : Type := (seq R * seq R * label)%type.

(** The state of the loop over a line: [new_data], [new_x], [new_y]. *)
Definition screen_state : Type := (seq plot_line * seq R * seq R)%type.

(** The body of the loop over [i], lines 334-346.  [x[i - 1]] and [x[i]]
    are in range by the bounds of the loop. *)
Definition screen_point (elapsed_time : R) (x y : seq R) (name : label)
    (st : screen_state) (i : nat) : result screen_state :=
  let: (new_data, new_x, new_y) := st in
  let x_diff := (nth 0 x i - nth 0 x i.-1)%Re in
  if Rltb (x_diff * 1440)%Re elapsed_time then
    if size new_x == 0%N then
      y0 <~ list_getitem 0%Re y i.-1 ;;
      y1 <~ list_getitem 0%Re y i ;;
      Ok (new_data, new_x ++ [:: nth 0 x i.-1; nth 0 x i],
          new_y ++ [:: y0; y1])
    else if Rltb (Rabs (last 0 new_x - nth 0 x i.-1))%Re (1 / 10000)%Re then
      y1 <~ list_getitem 0%Re y i ;;
      Ok (new_data, rcons new_x (nth 0 x i), rcons new_y y1)
    else
      y0 <~ list_getitem 0%Re y i.-1 ;;
      y1 <~ list_getitem 0%Re y i ;;
      Ok (rcons new_data (new_x, new_y, name),
          [:: nth 0 x i.-1; nth 0 x i], [:: y0; y1])
  else Ok st.

(** The body of the loop over [plot_data], lines 329-348. *)
Definition screen_line (elapsed_time : R) (new_data : seq plot_line)
    (line : plot_line) : result (seq plot_line) :=
  let: (x, y, name) := line in
  st <~ foldM (screen_point elapsed_time x y name) (new_data, [::], [::])
          (iota 1 (size x - 1)) ;;
  let: (new_data, new_x, new_y) := st in
  Ok (if (0 < size new_x)%N then rcons new_data (new_x, new_y, name)
      else new_data).

(** [screen_for_elapsed_time], lines 318-350 *)
Definition screen_for_elapsed_time (plot_data : seq plot_line)
    (elapsed_time : R) : result (seq plot_line) :=
  foldM (screen_line elapsed_time) [::] plot_data.

(** Whether the samples [i - 1] and [i] of the times [x] are less than
    [elapsed_time] minutes apart, as line 335 tests it. *)
Definition repeat_within (elapsed_time : R) (x : seq R) (i : nat) : bool :=
  Rltb ((nth 0 x i - nth 0 x i.-1) * 1440)%Re elapsed_time.

(** A line with as many values as times, and at least two of them. *)
Definition segment_ok (l : plot_line) : bool :=
  (size l.1.1 == size l.1.2) && (1 < size l.1.1)%N.

(** A line all of whose successive samples are repeats. *)
Definition all_within (elapsed_time : R) (l : plot_line) : bool :=
  segment_ok l
  && all (repeat_within elapsed_time l.1.1) (iota 1 (size l.1.1 - 1)).

(** What the loop over a line keeps true: the segments closed so far are
    well formed, and the open one has as many values as times, and not
    just one. *)
Definition screen_inv (st : screen_state) : Prop :=
  [/\ all segment_ok st.1.1, size st.1.2 = size st.2
    & size st.1.2 != 1%N].

(** The state of the loop over a line, with the segments [acc] of the
    lines before it. *)
Definition shift (acc : seq plot_line) (st : screen_state)
    : screen_state :=
  (acc ++ st.1.1, st.1.2, st.2).

End ScreenForElapsedTime.

Section CalcNoneDg.

(** The station occupations of [data], the name of a loop and the deltas;
    [DeltaNormal] is the constructor called as
    [DeltaNormal(sta1, sta2, driftcorr=..., loop=...)]. *)
Variables (station loop_name delta : Type).
Variable DeltaNormal : option station -> station -> R -> loop_name -> delta.

(** The loop of lines 389-392, from [deltas] and [prev_station]. *)
Fixpoint none_dg_loop (name : loop_name) (deltas : seq delta)
    (prev_station : option station) (data : seq station) : seq delta :=
  if data is station :: data' then
    none_dg_loop name (DeltaNormal prev_station station 0%Re name :: deltas)
      (Some station) data'
  else deltas.

(** [calc_none_dg], lines 378-393: the list [data] as the call leaves it,
    and the deltas returned. *)
Definition calc_none_dg (data : seq station) (name : loop_name)
    : seq station * seq delta :=
  let: (prev_station, data) :=
    if data is s :: data' then (Some s, data') else (None, data) in
  (data, none_dg_loop name [::] prev_station data).

End CalcNoneDg.

Section ProcessTares.

(** The time stamp of a tare, and matplotlib's [date2num] that turns it
    into days. *)
Variable datetime : Type.
Variable date2num : datetime -> R.

(** The attributes of a tare that [process_tares] reads. *)
Record Tare : Type := mkTare {
  tare_checked : Z;
  tare_datetime : datetime;
  tare_tare : R
}.

(** The attributes of a station of the loop that [process_tares] uses: the
    times [t] of its samples and the list [tare], which it assigns. *)
Record ObsTreeStation : Type := mkObsTreeStation {
  station_t : seq R;
  station_tare : seq R
}.

(** The loop: its rows ([rowCount], [child]) and its [tares]. *)
Record ObsTreeLoop : Type := mkObsTreeLoop {
  loop_children : seq ObsTreeStation;
  loop_tares : seq Tare
}.

(** A statement that assigns to the list [tare] of a station: the list
    as the statement leaves it, and whether it raised. *)
Definition tare_stmt : Type := seq R -> seq R * result unit.

(** [for idx, t in enumerate(ts): body idx t] on the list [tare]; an
    exception ends the loop. *)
Fixpoint for_enumerate (body : nat -> R -> tare_stmt) (idx : nat)
    (ts : seq R) : tare_stmt :=
  fun tare =>
    if ts is t :: ts' then
      match body idx t tare with
      | (tare', Ok _) => for_enumerate body idx.+1 ts' tare'
      | (tare', Raise e) => (tare', Raise e)
      end
    else (tare, Ok tt).

(** [tare[idx] = v] *)
Definition tare_assign (idx : nat) (v : R) : tare_stmt :=
  fun tare =>
    match list_setitem 0%Re tare idx v with
    | Ok tare' => (tare', Ok tt)
    | Raise e => (tare, Raise e)
    end.

(** [tare[idx] += v] *)
Definition tare_add (idx : nat) (v : R) : tare_stmt :=
  fun tare =>
    match list_getitem 0%Re tare idx with
    | Ok old => tare_assign idx (old + v)%Re tare
    | Raise e => (tare, Raise e)
    end.

(** Lines 1032-1038: the loop over the tares of the loop. *)
Fixpoint apply_tares (ts : seq R) (tares : seq Tare) : tare_stmt :=
  fun tare =>
    if tares is tr :: tares' then
      if (tare_checked tr =? 2)%Z then
        let tare_dt := date2num (tare_datetime tr) in
        match for_enumerate
                (fun idx t =>
                   if Rltb tare_dt t then tare_add idx (tare_tare tr)
                   else fun tare => (tare, Ok tt)) 0 ts tare with
        | (tare', Ok _) => apply_tares ts tares' tare'
        | (tare', Raise e) => (tare', Raise e)
        end
      else apply_tares ts tares' tare
    else (tare, Ok tt).

(** Lines 1028-1038: the body of the loop over the stations. *)
Definition process_station (tares : seq Tare) (s : ObsTreeStation)
    : ObsTreeStation * result unit :=
  match for_enumerate (fun idx _ => tare_assign idx 0%Re) 0 (station_t s)
          (station_tare s) with
  | (tare', Ok _) =>
      let: (tare'', res) := apply_tares (station_t s) tares tare' in
      (mkObsTreeStation (station_t s) tare'', res)
  | (tare', Raise e) => (mkObsTreeStation (station_t s) tare', Raise e)
  end.

(** The loop over the rows, line 1027. *)
Fixpoint process_rows (tares : seq Tare) (rows : seq ObsTreeStation)
    : seq ObsTreeStation * result unit :=
  if rows is s :: rows' then
    match process_station tares s with
    | (s', Ok _) =>
        let: (rows'', res) := process_rows tares rows' in (s' :: rows'', res)
    | (s', Raise e) => (s' :: rows', Raise e)
    end
  else ([::], Ok tt).

(** [process_tares], lines 1020-1038: the loop as the call leaves it. *)
Definition process_tares (obstreeloop : ObsTreeLoop)
    : ObsTreeLoop * result unit :=
  let: (rows, res) :=
    process_rows (loop_tares obstreeloop) (loop_children obstreeloop) in
  (mkObsTreeLoop rows (loop_tares obstreeloop), res).

(** The sum of the checked tares that lie before the time [t]. *)
Definition tare_total (tares : seq Tare) (t : R) : R :=
  \sum_(tr <- tares | (tare_checked tr =? 2)%Z
                      && Rltb (date2num (tare_datetime tr)) t)
     tare_tare tr.

(** A station with a [tare] entry for each of its samples. *)
Definition tare_room (s : ObsTreeStation) : bool :=
  (size (station_t s) <= size (station_tare s))%N.

End ProcessTares.

(* ===================================================================== *)
(** * More small networks and inputs                                       *)
(* ===================================================================== *)

(** [one_station] with the given observations, weights and [dof]. *)
Definition station_network (P Obs : ndarray R) (dof : Z) : Adjustment.t :=
  network (NdArray station_A) P Obs unset unset unset dof
    AdjustmentOptions.init AdjustmentResults.init.

(** Two observations that the value 5 fits exactly. *)
Definition exact_station : Adjustment.t :=
  station_network (NdArray station_P)
    (NdArray (station_A *m (5%Re)%:M)) 1.

(** A weight matrix for one observation, with two observations. *)
Definition misweighted : Adjustment.t :=
  station_network (NdArray (1%:M : 'M[R]_1)) (NdArray station_Obs) 1.

(** Three observed values for the two rows of [A]. *)
Definition misobserved : Adjustment.t :=
  station_network (NdArray station_P) (NdArray (0 : 'M[R]_(3, 1))) 1.

(** [one_station] without redundancy on record: [dof] is 0. *)
Definition station_dof0 : Adjustment.t :=
  station_network (NdArray station_P) (NdArray station_Obs) 0.

(** [one_station] with its unit weights given as a diagonal. *)
Definition station_w : 'rV[R]_2 := const_mx 1%Re.

Definition weighted_station : Adjustment.t :=
  station_network (NdArray (diag_mx station_w)) (NdArray station_Obs) 1.

(** Two unknowns observed directly, with three columns of observations. *)
Definition three_epochs : Adjustment.t :=
  network (NdArray (1%:M : 'M[R]_2)) (NdArray (1%:M : 'M[R]_2))
    (NdArray (0 : 'M[R]_(2, 3))) unset unset unset 1
    AdjustmentOptions.init AdjustmentResults.init.

(** A solved adjustment with one loop whose drift is a polynomial of the
    given degree in the network adjustment, and the given [X]. *)
Definition drifting (X : ndarray R) (degree : Z) (dof : option Z)
    : Adjustment.t :=
  Adjustment.mk unset unset unset unset X unset [::] unset unset64 1 0
    [::] [::] [::] [::] [::] [:: ("loop1"%string, (0%Z, degree))] [::]
    (options (5 / 100)%Re false false)
    (meter_results (Fin 2) (Fin 4) dof None).

(** An adjustment with the given tables of adjusted values and of their
    standard deviations. *)
Definition tabulated (g_dic sd_dic : seq (string * R)) : Adjustment.t :=
  Adjustment.mk unset unset unset unset unset unset [::] unset unset64 1 0
    [::] [::] [::] g_dic sd_dic [::] [::] AdjustmentOptions.init
    AdjustmentResults.init.

(** Plotted lines, by name: a station read twice half a minute apart, a
    station read once, and a line that lost its values. *)
Definition repeat_line : plot_line string :=
  ([:: 0; 1 / 2880]%Re, [:: 1; 2]%Re, "A"%string).

Definition single_line : plot_line string :=
  ([:: 0%Re], [:: 5%Re], "B"%string).

Definition short_line : plot_line string :=
  ([:: 0; 1 / 2880]%Re, [::], "C"%string).

(** A loop of one station with samples on days 1 and 3 and the given list
    [tare], a checked tare of 5 on day 2 and an unchecked one; the time
    stamps are in days already. *)
Definition tared_loop (tare : seq R) : ObsTreeLoop R :=
  mkObsTreeLoop [:: mkObsTreeStation [:: 1; 3]%Re tare]
    [:: mkTare 2 2%Re 5%Re; mkTare 0 0%Re 7%Re].

(* ===================================================================== *)
(** * Facts about arrays                                                   *)
(* ===================================================================== *)

Section ArrayFacts.

Lemma mx_getE T (d : T) m n (M : 'M[T]_(m, n)) (i : 'I_m) (j : 'I_n) :
  mx_get d M i j = M i j.
Proof. by rewrite /mx_get !valK. Qed.

Lemma NdArray_inj T m n (M M' : 'M[T]_(m, n)) :
  NdArray M = NdArray M' -> M = M'.
Proof.
pose f (a : ndarray T) : 'M[T]_(m, n) :=
  match @eqP _ (nrows a) m, @eqP _ (ncols a) n with
  | ReflectT e1, ReflectT e2 => castmx (e1, e2) (data a)
  | _, _ => M
  end.
have fE (K : 'M[T]_(m, n)) : f (NdArray K) = K.
  rewrite /f /=; case: eqP => // e1; case: eqP => // e2.
  by rewrite (eq_irrelevance e1 erefl) (eq_irrelevance e2 erefl) castmx_id.
by move=> /(congr1 f); rewrite !fE.
Qed.

Lemma dot_mk m n q (Ma : 'M[R]_(m, n)) (Mb : 'M[R]_(n, q)) :
  dot (NdArray Ma) (NdArray Mb) = Ok (NdArray (Ma *m Mb)).
Proof.
rewrite /dot /=; case: eqP => // e.
by rewrite (eq_irrelevance e erefl) castmx_id.
Qed.

Lemma dot_mismatch m n p q (Ma : 'M[R]_(m, n)) (Mb : 'M[R]_(p, q)) :
  p != n -> dot (NdArray Ma) (NdArray Mb) = Raise ValueError.
Proof. by rewrite /dot /=; case: eqP. Qed.

Lemma linalg_inv_unit (gesv : lapack) n (M : 'M[R]_n) :
  M \in unitmx -> linalg_inv gesv (NdArray M) = Ok (NdArray (invmx M)).
Proof.
rewrite /linalg_inv /=; case: eqP => // e.
by rewrite (eq_irrelevance e erefl) castmx_id => ->.
Qed.

Lemma linalg_inv_singular (gesv : lapack) n (M : 'M[R]_n) :
  M \notin unitmx ->
  linalg_inv gesv (NdArray M)
  = if gesv n M is Some G then Ok (NdArray G) else Raise LinAlgError.
Proof.
rewrite /linalg_inv /=; case: eqP => // e.
by rewrite (eq_irrelevance e erefl) castmx_id => /negbTE ->.
Qed.

Lemma bidx_ord m (i : 'I_m) : bidx m i = i.
Proof.
rewrite /bidx; case: eqP => // m1; move: i; rewrite m1 => i.
by rewrite ord1.
Qed.

Lemma bdim_1r k : bdim k 1 = Some k.
Proof. by rewrite /bdim; case: eqP => [->|] //; case: eqP. Qed.

Lemma broadcast_same T U V (dT : T) (dU : U) (op : T -> U -> V) m n
    (Ma : 'M[T]_(m, n)) (Mb : 'M[U]_(m, n)) :
  broadcast dT dU op (NdArray Ma) (NdArray Mb)
  = Ok (NdArray (\matrix_(i, j) op (Ma i j) (Mb i j))).
Proof.
rewrite /broadcast /bdim /= !eqxx; congr (Ok (NdArray _)).
by apply/matrixP => i j; rewrite !mxE !bidx_ord !mx_getE.
Qed.

Lemma np_subtract_same m n (Ma Mb : 'M[R]_(m, n)) :
  np_subtract (NdArray Ma) (NdArray Mb) = Ok (NdArray (Ma - Mb)).
Proof.
rewrite /np_subtract broadcast_same; congr (Ok (NdArray _)).
by apply/matrixP => i j; rewrite !mxE.
Qed.

Lemma np_multiply_scalar k (Ni : 'M[R]_k) (V : 'M[float64]_1) :
  np_multiply (NdArray Ni) (NdArray V)
  = Ok (NdArray (\matrix_(i, j) F64.mul (Fin (Ni i j)) (V ord0 ord0))).
Proof.
rewrite /np_multiply /broadcast /= bdim_1r; congr (Ok (NdArray _)).
apply/matrixP => i j; rewrite !mxE !bidx_ord mx_getE /bidx eqxx.
by rewrite (mx_getE NaN V ord0 ord0).
Qed.

Lemma np_diagonal_square T (d : T) k (C : 'M[T]_k) :
  np_diagonal d (NdArray C) = [seq C i i | i <- enum 'I_k].
Proof.
rewrite /np_diagonal /= minnn.
apply: (@eq_from_nth _ d); first by rewrite size_mkseq size_map size_enum_ord.
move=> i; rewrite size_mkseq => ik.
rewrite nth_mkseq // (nth_map (Ordinal ik)) ?size_enum_ord //.
by rewrite -[i]/(val (Ordinal ik)) nth_ord_enum mx_getE.
Qed.

Lemma py_index_0 n : py_index n.+1 0 = Ok 0%N.
Proof.
rewrite /py_index.
have -> : (0 <? Z.of_nat n.+1)%Z = true by apply/Z.ltb_lt; lia.
by [].
Qed.

Lemma getitem2_00 T (d : T) m p (V : 'M[T]_(m.+1, p.+1)) :
  getitem2 d (NdArray V) 0 0 = Ok (V ord0 ord0).
Proof. by rewrite /getitem2 !py_index_0 /= (mx_getE d V ord0 ord0). Qed.

End ArrayFacts.

(* ===================================================================== *)
(** * Facts about float64 values                                           *)
(* ===================================================================== *)

Section FloatFacts.

Local Open Scope R_scope.

Lemma eqr_false (x y : R) : x <> y -> (x == y) = false.
Proof. by move=> h; apply/eqP. Qed.

Lemma Rltb_lt (x y : R) : Rltb x y <-> x < y.
Proof. by rewrite /Rltb; destruct (Rlt_dec x y). Qed.

Lemma F64_sqrt_Fin x : 0 <= x -> F64.sqrt (Fin x) = Fin (sqrt x).
Proof.
move=> h; rewrite /F64.sqrt; destruct (Rlt_dec x 0) as [h'|h'] => //; lra.
Qed.

Lemma F64_log_Fin x : 0 < x -> F64.log (Fin x) = Fin (ln x).
Proof.
move=> h; rewrite /F64.log; destruct (Rlt_dec x 0) as [h'|h']; first lra.
by rewrite eqr_false //; lra.
Qed.

Lemma F64_div_Fin x y : y <> 0 -> F64.div (Fin x) (Fin y) = Fin (x / y).
Proof. by move=> h; rewrite /F64.div eqr_false. Qed.

Lemma F64_add_Fin x y : F64.add (Fin x) (Fin y) = Fin (x + y).
Proof. by []. Qed.

Lemma F64_sub_Fin x y : F64.sub (Fin x) (Fin y) = Fin (x - y).
Proof. by []. Qed.

Lemma F64_mul_Fin x y : F64.mul (Fin x) (Fin y) = Fin (x * y).
Proof. by []. Qed.

Lemma F64_pow_Fin x n : F64.pow (Fin x) n = Fin (x ^ n).
Proof. by elim: n => //= n ->. Qed.

Lemma F64_lt_irrefl a : F64.lt a a = false.
Proof.
case: a => //= x; rewrite /Rltb.
by destruct (Rlt_dec x x) as [h|h] => //; lra.
Qed.

Lemma py_truediv_Ok x y : y <> 0 -> py_truediv x y = Ok (x / y).
Proof. by move=> h; rewrite /py_truediv eqr_false. Qed.

Lemma py_truediv_zero x : py_truediv x 0 = Raise ZeroDivisionError.
Proof. by rewrite /py_truediv eqxx. Qed.

End FloatFacts.

(** Arithmetic of finite values. *)
Ltac finite_arith :=
  rewrite ?(F64_add_Fin, F64_sub_Fin, F64_mul_Fin, F64_pow_Fin).

Arguments F64.add : simpl never.
Arguments F64.sub : simpl never.
Arguments F64.mul : simpl never.
Arguments F64.div : simpl never.
Arguments F64.pow : simpl never.
Arguments F64.sqrt : simpl never.
Arguments F64.log : simpl never.
Arguments py_truediv : simpl never.

(* ===================================================================== *)
(** * Facts about the chi-square approximation                             *)
(* ===================================================================== *)

Section ChiSquareFacts.

Local Open Scope R_scope.

Let pnum (t : R) : R :=
  2515517 / 1000000 + 802853 / 1000000 * t + 10328 / 1000000 * t ^ 2.

Let qden (t : R) : R :=
  1 + 1432788 / 1000000 * t + 189269 / 1000000 * t ^ 2
  + 1308 / 1000000 * t ^ 3.

Lemma qden_ge1 t : 0 <= t -> 1 <= qden t.
Proof. intros; unfold qden; nra. Qed.

(** The numerator grows more slowly than the denominator. *)
Lemma tail_cross t1 t2 :
  0 <= t1 -> t1 < t2 -> 0 < pnum t1 * qden t2 - pnum t2 * qden t1.
Proof.
intros h1 h2; unfold pnum, qden.
assert (e : forall a0 a1 a2 b1 b2 b3,
  (a0 + a1 * t1 + a2 * t1 ^ 2) * (1 + b1 * t2 + b2 * t2 ^ 2 + b3 * t2 ^ 3)
  - (a0 + a1 * t2 + a2 * t2 ^ 2) * (1 + b1 * t1 + b2 * t1 ^ 2 + b3 * t1 ^ 3)
  = (t2 - t1) *
    ((a0 * b1 - a1) + (a0 * b2 - a2) * (t1 + t2)
     + a0 * b3 * (t1 ^ 2 + t1 * t2 + t2 ^ 2)
     + (a1 * b2 - a2 * b1) * (t1 * t2)
     + a1 * b3 * (t1 * t2) * (t1 + t2)
     + a2 * b3 * (t1 * t2) ^ 2)) by (intros; ring).
rewrite e; apply Rmult_lt_0_compat; [lra|].
assert (0 <= t2) by lra.
assert (0 <= t1 * t2) by nra.
assert (0 <= t1 ^ 2 + t1 * t2 + t2 ^ 2) by nra.
assert (0 <= (t1 * t2) * (t1 + t2)) by nra.
assert (0 <= (t1 * t2) ^ 2) by nra.
nra.
Qed.

Lemma rational_tail_decr t1 t2 :
  0 <= t1 -> t1 < t2 -> rational_tail t2 < rational_tail t1.
Proof.
intros h1 h2; assert (h3 : 0 <= t2) by lra.
pose proof (qden_ge1 h1); pose proof (qden_ge1 h3).
pose proof (tail_cross h1 h2).
change (pnum t2 / qden t2 < pnum t1 / qden t1).
apply (Rmult_lt_reg_r (qden t1 * qden t2)); [nra|].
field_simplify; lra.
Qed.

Lemma rational_tail_bounds t :
  0 <= t -> 0 <= rational_tail t <= 2515517 / 1000000.
Proof.
intros h0; pose proof (qden_ge1 h0) as hq.
change (0 <= pnum t / qden t <= 2515517 / 1000000); split.
- apply Rmult_le_pos; [unfold pnum; nra|].
  apply Rlt_le, Rinv_0_lt_compat; lra.
- apply (Rmult_le_reg_r (qden t)); [lra|].
  unfold Rdiv at 1; rewrite Rmult_assoc Rinv_l; try lra.
  unfold pnum, qden in *; nra.
Qed.

Lemma cube_incr x y : x < y -> x ^ 3 < y ^ 3.
Proof.
intros h.
assert (e : y ^ 3 - x ^ 3 = (y - x) * ((x + y / 2) ^ 2 + 3 / 4 * y ^ 2))
  by field.
assert (0 < (x + y / 2) ^ 2 + 3 / 4 * y ^ 2).
{ destruct (Req_dec y 0) as [y0|y0].
  - subst y.
    assert (0 < (- x) * (- x)) by (apply Rmult_lt_0_compat; lra).
    replace ((x + 0 / 2) ^ 2 + 3 / 4 * 0 ^ 2) with ((- x) * (- x)) by field.
    assumption.
  - assert (0 < y * y) by (apply Rsqr_pos_lt; assumption).
    assert (0 <= (x + y / 2) * (x + y / 2)) by apply Rle_0_sqr.
    replace ((x + y / 2) ^ 2 + 3 / 4 * y ^ 2)
      with ((x + y / 2) * (x + y / 2) + 3 / 4 * (y * y)) by ring.
    lra. }
assert (0 < (y - x) * ((x + y / 2) ^ 2 + 3 / 4 * y ^ 2))
  by (apply Rmult_lt_0_compat; lra).
lra.
Qed.

(** The inequality of the arithmetic and geometric means of [s1, s2, s2]. *)
Lemma amgm3 s1 s2 : 0 < s2 < s1 -> 27 * s1 * s2 ^ 2 < (s1 + 2 * s2) ^ 3.
Proof.
intros [h1 h2].
assert (e : (s1 + 2 * s2) ^ 3 - 27 * s1 * s2 ^ 2
            = (s1 - s2) ^ 2 * (s1 + 8 * s2)) by ring.
assert (0 < (s1 - s2) ^ 2 * (s1 + 8 * s2)).
{ apply Rmult_lt_0_compat; [|lra]. apply pow_lt; lra. }
lra.
Qed.

(** [wh_base z s ^ 3 / s ^ 2] decreases in [s] on the range that
    [dof >= 5] gives, for a deviate that is not extreme. *)
Lemma wh_base_decr z s1 s2 :
  - (2515517 / 1000000) <= z <= 9 -> 0 < s2 < s1 -> s1 ^ 2 <= 2 / 45 ->
  s2 ^ 2 * wh_base z s1 ^ 3 < s1 ^ 2 * wh_base z s2 ^ 3.
Proof.
intros [z0 z1] [h2 h1] hs.
assert (s1b : s1 < 211 / 1000) by nra.
assert (B1 : 0 < wh_base z s1) by (unfold wh_base in *; nra).
assert (zs : z * s1 <= 2) by nra.
assert (k : wh_base z s1 * (s1 + 2 * s2) <= 3 * s1 * wh_base z s2).
{ unfold wh_base.
  assert (e : 3 * s1 * (z * s2 + 1 - s2 ^ 2)
              - (z * s1 + 1 - s1 ^ 2) * (s1 + 2 * s2)
              = (s1 - s2) * (2 + s1 ^ 2 + 3 * s1 * s2 - z * s1)) by ring.
  assert (0 <= (s1 - s2) * (2 + s1 ^ 2 + 3 * s1 * s2 - z * s1))
    by (apply Rmult_le_pos; nra).
  lra. }
set (u := wh_base z s1 * (s1 + 2 * s2)) in *.
set (v := 3 * s1 * wh_base z s2) in *.
assert (u0 : 0 < u) by (unfold u; apply Rmult_lt_0_compat; lra).
assert (uv : u ^ 3 <= v ^ 3) by (apply pow_incr; lra).
pose proof (amgm3 (conj h2 h1)) as am.
assert (B13 : 0 < wh_base z s1 ^ 3) by (apply pow_lt; lra).
assert (27 * s1 * s2 ^ 2 * wh_base z s1 ^ 3 < u ^ 3).
{ unfold u.
  replace ((wh_base z s1 * (s1 + 2 * s2)) ^ 3)
    with (wh_base z s1 ^ 3 * (s1 + 2 * s2) ^ 3) by ring.
  nra. }
assert (v ^ 3 = 27 * s1 * (s1 ^ 2 * wh_base z s2 ^ 3)) by (unfold v; ring).
assert (27 * s1 * (s2 ^ 2 * wh_base z s1 ^ 3)
        < 27 * s1 * (s1 ^ 2 * wh_base z s2 ^ 3)) by lra.
apply (Rmult_lt_reg_l (27 * s1)); lra.
Qed.

Lemma sqrt_pow2 x : 0 <= x -> sqrt x ^ 2 = x.
Proof. by move=> h; rewrite /= Rmult_1_r sqrt_sqrt. Qed.

Lemma wilson_hilferty_base z d :
  0 < d ->
  wilson_hilferty z d
  = 2 / 9 * (wh_base z (sqrt (2 / (9 * d))) ^ 3 / sqrt (2 / (9 * d)) ^ 2).
Proof.
intros hd; unfold wilson_hilferty, wh_base.
assert (h : 0 < 2 / (9 * d)) by (apply Rdiv_lt_0_compat; lra).
rewrite sqrt_pow2; try lra.
field; lra.
Qed.

(** The critical value grows with the degrees of freedom. *)
Lemma wilson_hilferty_incr_dof z da db :
  - (2515517 / 1000000) <= z <= 9 -> 5 <= da < db ->
  wilson_hilferty z da < wilson_hilferty z db.
Proof.
intros hz [h5 hab].
assert (ha : 0 < da) by lra; assert (hb : 0 < db) by lra.
rewrite (wilson_hilferty_base z ha) (wilson_hilferty_base z hb).
assert (qa : 0 < 2 / (9 * da)) by (apply Rdiv_lt_0_compat; lra).
assert (qb : 0 < 2 / (9 * db)) by (apply Rdiv_lt_0_compat; lra).
assert (qab : 2 / (9 * db) < 2 / (9 * da)).
{ unfold Rdiv; apply Rmult_lt_compat_l; [lra|].
  apply Rinv_lt_contravar; nra. }
set (sa := sqrt (2 / (9 * da))); set (sb := sqrt (2 / (9 * db))).
assert (sa2 : sa ^ 2 = 2 / (9 * da)) by (apply sqrt_pow2; lra).
assert (sb2 : sb ^ 2 = 2 / (9 * db)) by (apply sqrt_pow2; lra).
assert (sb0 : 0 < sb) by (apply sqrt_lt_R0; lra).
assert (sab : sb < sa) by (apply sqrt_lt_1; lra).
assert (sa45 : sa ^ 2 <= 2 / 45).
{ rewrite sa2; unfold Rdiv; apply Rmult_le_compat_l; [lra|].
  apply Rinv_le_contravar; lra. }
pose proof (wh_base_decr hz (conj sb0 sab) sa45) as hm.
assert (sa0 : 0 < sa ^ 2) by (apply pow_lt; lra).
assert (sb0' : 0 < sb ^ 2) by (apply pow_lt; lra).
apply Rmult_lt_compat_l; [lra|].
apply (Rmult_lt_reg_r (sa ^ 2 * sb ^ 2)); [nra|].
field_simplify; lra.
Qed.

(** The critical value grows with the deviate. *)
Lemma wilson_hilferty_incr_z z1 z2 d :
  0 < d -> z1 < z2 -> wilson_hilferty z1 d < wilson_hilferty z2 d.
Proof.
intros hd hz; unfold wilson_hilferty.
assert (h : 0 < 2 / (9 * d)) by (apply Rdiv_lt_0_compat; lra).
assert (s0 : 0 < sqrt (2 / (9 * d))) by (apply sqrt_lt_R0; lra).
apply Rmult_lt_compat_l; [lra|]; apply cube_incr; nra.
Qed.

Lemma ln_inv_pos alpha : 0 < alpha < 1 -> 0 < ln (1 / alpha).
Proof.
move=> [a0 a1]; rewrite -ln_1; apply: ln_increasing; first lra.
rewrite -[X in X < _]Rinv_1 /Rdiv Rmult_1_l.
by apply: Rinv_lt_contravar; lra.
Qed.

Lemma ln_inv_decr a1 a2 : 0 < a2 < a1 -> ln (1 / a1) < ln (1 / a2).
Proof.
move=> [h2 h1]; apply: ln_increasing.
  by apply: Rdiv_lt_0_compat; lra.
by rewrite /Rdiv !Rmult_1_l; apply: Rinv_lt_contravar; nra.
Qed.

Lemma ln_inv_le alpha c : exp c <= alpha -> ln (1 / alpha) <= - c.
Proof.
move=> h; have e0 := exp_pos c.
have a0 : 0 < alpha by lra.
rewrite /Rdiv Rmult_1_l ln_Rinv //.
have : c <= ln alpha.
  rewrite -[X in X <= _]ln_exp.
  by case: h => [h|<-]; [apply: Rlt_le; apply: ln_increasing | lra].
lra.
Qed.

(** The deviate grows as [alpha] decreases. *)
Lemma normal_deviate_decr a1 a2 :
  0 < a2 < a1 -> a1 < 1 -> normal_deviate a1 < normal_deviate a2.
Proof.
move=> h12 h1; rewrite /normal_deviate.
have l1 : 0 < ln (1 / a1) by apply: ln_inv_pos; lra.
have l12 := ln_inv_decr h12.
set t1 := sqrt _; set t2 := sqrt _.
have t10 : 0 <= t1 by apply: sqrt_pos.
have t12 : t1 < t2 by apply: sqrt_lt_1; lra.
have := rational_tail_decr t10 t12; lra.
Qed.

(** The deviate of a significance level that is not extreme. *)
Lemma normal_deviate_bounds alpha :
  exp (- 40) <= alpha < 1 ->
  - (2515517 / 1000000) <= normal_deviate alpha <= 9.
Proof.
move=> [h40 h1]; have e0 := exp_pos (- 40).
have l0 : 0 < ln (1 / alpha) by apply: ln_inv_pos; lra.
have l40 := ln_inv_le h40.
rewrite /normal_deviate; set t := sqrt _.
have t0 : 0 <= t by apply: sqrt_pos.
have t9 : t <= 9.
  have -> : 9 = sqrt (9 * 9) by rewrite sqrt_square; lra.
  rewrite /t; apply: sqrt_le_1_alt; lra.
have := rational_tail_bounds t0; lra.
Qed.

End ChiSquareFacts.

(* ===================================================================== *)
(** * Runs of [python_lsq_inversion]                                       *)
(* ===================================================================== *)

Section Inversion.

Import Adjustment.

Variable gesv : lapack.
Variables (n k q : nat).
Variables (MA : 'M[R]_(n, k)) (MP : 'M[R]_n) (MObs : 'M[R]_(n, q)).
Variable a : Adjustment.t.
Hypothesis HA : A a = NdArray MA.
Hypothesis HP : P a = NdArray MP.

Let N := normal_matrix MA MP.
Let Xs := lsq_solution MA MP MObs.
Let rs := lsq_residual MA MP MObs.
Let Vs := rs^T *m MP *m rs.

(** On a singular system whose factorisation meets an exact zero pivot
    the first inversion raises: nothing has been assigned. *)
Lemma python_lsq_inversion_LinAlgError :
  N \notin unitmx -> @gesv k N = None ->
  python_lsq_inversion gesv a = (a, Raise LinAlgError).
Proof.
move=> HN Hg.
rewrite /python_lsq_inversion /bind /get /lift /assign /=.
rewrite HA HP /np_transpose /= dot_mk /= dot_mk /=.
by rewrite linalg_inv_singular // -/(normal_matrix MA MP) -/N Hg.
Qed.

Hypothesis HObs : Obs a = NdArray MObs.

(** On an invertible system the method runs up to the broadcast product
    of line 230, which decides how it ends. *)
Lemma python_lsq_inversion_unit :
  N \in unitmx ->
  python_lsq_inversion gesv a =
    let var_post_norm := np_divide_int (NdArray Vs) (dof a) in
    let s :=
      set_SDaposteriori (np_sqrt var_post_norm)
        (set_VtPV (NdArray Vs)
           (set_r (NdArray rs) (set_X (NdArray Xs) a))) in
    match np_multiply (NdArray (invmx N)) var_post_norm with
    | Ok cov_post => (set_var (np_diagonal NaN cov_post) s, Ok tt)
    | Raise e => (s, Raise e)
    end.
Proof.
move=> HN.
rewrite /python_lsq_inversion /bind /get /lift /assign /=.
rewrite HA HP HObs /np_transpose /= dot_mk /= dot_mk /=.
rewrite linalg_inv_unit //= dot_mk /= dot_mk /= dot_mk /= dot_mk /=.
rewrite np_subtract_same /= dot_mk /= dot_mk /=.
have -> : invmx (MA^T *m MP *m MA) *m MA^T *m MP *m MObs = Xs.
  by rewrite /Xs /lsq_solution /normal_matrix -!mulmxA.
by [].
Qed.

(** On a singular system whose factorisation meets no zero pivot, the
    method runs on with the array [G] that [numpy.linalg.inv] returns in
    the place of an inverse. *)
Lemma python_lsq_inversion_rounded (G : 'M[R]_k) :
  N \notin unitmx -> @gesv k N = Some G ->
  python_lsq_inversion gesv a =
    let Xg := G *m MA^T *m MP *m MObs in
    let rg := MA *m Xg - MObs in
    let Vg := rg^T *m MP *m rg in
    let var_post_norm := np_divide_int (NdArray Vg) (dof a) in
    let s :=
      set_SDaposteriori (np_sqrt var_post_norm)
        (set_VtPV (NdArray Vg)
           (set_r (NdArray rg) (set_X (NdArray Xg) a))) in
    match np_multiply (NdArray G) var_post_norm with
    | Ok cov_post => (set_var (np_diagonal NaN cov_post) s, Ok tt)
    | Raise e => (s, Raise e)
    end.
Proof.
move=> HN Hg.
rewrite /python_lsq_inversion /bind /get /lift /assign /=.
rewrite HA HP HObs /np_transpose /= dot_mk /= dot_mk /=.
rewrite linalg_inv_singular // -/(normal_matrix MA MP) -/N Hg /=.
rewrite dot_mk /= dot_mk /= dot_mk /= dot_mk /=.
by rewrite np_subtract_same /= dot_mk /= dot_mk /=.
Qed.

End Inversion.

(** The normal matrix of [one_station] is [[2]]. *)
Lemma station_normal : normal_matrix station_A station_P = (2%Re)%:M.
Proof.
rewrite /normal_matrix /station_A /station_P trmx_const mulmx1.
apply/matrixP => i j; rewrite !mxE !ord1 /= big_ord_recl big_ord1 !mxE.
by rewrite /GRing.mul /GRing.add /GRing.natmul /=; lra.
Qed.

Lemma station_unit : normal_matrix station_A station_P \in unitmx.
Proof.
rewrite station_normal unitmxE det_scalar1 unitfE.
by apply/eqP; rewrite /GRing.zero /=; lra.
Qed.

(** The solution solves the normal equations [N X = A^T P Obs]. *)
Lemma lsq_solution_normal_equations n k q
    (MA : 'M[R]_(n, k)) (MP : 'M[R]_n) (MObs : 'M[R]_(n, q)) :
  normal_matrix MA MP \in unitmx ->
  normal_matrix MA MP *m lsq_solution MA MP MObs = MA^T *m (MP *m MObs).
Proof. by move=> HN; rewrite /lsq_solution mulKVmx. Qed.

(** [one_station]: the adjusted value of observations 10 and 12 with equal
    weights is their mean. *)
Lemma one_station_solution :
  Adjustment.X (Adjustment.python_lsq_inversion exact_pivot one_station).1
  = NdArray ((11%Re)%:M : 'M[R]_1).
Proof.
rewrite (@python_lsq_inversion_unit exact_pivot 2 1 1 station_A station_P
           station_Obs one_station erefl erefl erefl station_unit).
rewrite /np_divide_int /amap np_multiply_scalar /=.
congr NdArray; rewrite /lsq_solution station_normal invmx_scalar.
rewrite /station_P mul1mx /station_A trmx_const.
apply/matrixP => i j.
rewrite !mxE !ord1 /= big_ord1 !mxE /= big_ord_recl big_ord1 !mxE /=.
by rewrite /GRing.mul /GRing.add /GRing.natmul /GRing.inv /=; lra.
Qed.

Lemma unobserved_singular :
  normal_matrix (0 : 'M[R]_(2, 1)) station_P \notin unitmx.
Proof. by rewrite /normal_matrix mulmx0 unitmxE det0 unitr0. Qed.

(** Case analysis on every expression of a method that may raise. *)
Ltac split_results :=
  repeat match goal with
  | |- context [match ?c with Ok _ => _ | Raise _ => _ end] =>
      destruct c; simpl
  end.

(* ===================================================================== *)
(** * The claims about [python_lsq_inversion]                              *)
(* ===================================================================== *)

(** C1.  On every adjustment whose [A] (n x k), [P] (n x n) and [Obs]
    (n x q) have consistent dimensions and whose normal matrix
    [N = A^T P A] is invertible, [python_lsq_inversion] sets [X] to
    [N^-1 A^T P Obs] and [r] to [A X - Obs]; when [Obs] is a column vector
    the method returns without raising. *)
Theorem python_lsq_inversion_solution (gesv : lapack)
    n k q (MA : 'M[R]_(n, k)) (MP : 'M[R]_n) (MObs : 'M[R]_(n, q))
    (a : Adjustment.t) :
  Adjustment.A a = NdArray MA -> Adjustment.P a = NdArray MP ->
  Adjustment.Obs a = NdArray MObs ->
  normal_matrix MA MP \in unitmx ->
  let a' := (Adjustment.python_lsq_inversion gesv a).1 in
  let X := invmx (normal_matrix MA MP) *m (MA^T *m (MP *m MObs)) in
  [/\ Adjustment.X a' = NdArray X,
      Adjustment.r a' = NdArray (MA *m X - MObs)
    & q = 1%N -> (Adjustment.python_lsq_inversion gesv a).2 = Ok tt].
Proof.
move=> HA HP HO HN.
rewrite (python_lsq_inversion_unit gesv HA HP HO HN) /=.
split.
- by case: np_multiply.
- by case: np_multiply.
move=> q1; subst q.
by rewrite /np_divide_int /amap /= np_multiply_scalar.
Qed.

(** C1 on [one_station]. *)
Lemma python_lsq_inversion_solution_witness :
  let a' := (Adjustment.python_lsq_inversion exact_pivot one_station).1 in
  let X := invmx (normal_matrix station_A station_P)
           *m (station_A^T *m (station_P *m station_Obs)) in
  [/\ Adjustment.X a' = NdArray X,
      Adjustment.r a' = NdArray (station_A *m X - station_Obs)
    & 1%N = 1%N ->
      (Adjustment.python_lsq_inversion exact_pivot one_station).2 = Ok tt].
Proof.
exact: (@python_lsq_inversion_solution exact_pivot 2 1 1 station_A station_P
          station_Obs one_station erefl erefl erefl station_unit).
Defined.

(** C2.  On every adjustment with an observation vector, an invertible
    normal matrix [N] and [dof > 0], after [python_lsq_inversion]:
    [VtPV] is [r^T P r] for the residual [r] the method stored,
    [SDaposteriori] is [sqrt(VtPV/dof)] and [var] is the diagonal of
    [N^-1 (VtPV/dof)]. *)
Theorem python_lsq_inversion_covariance (gesv : lapack)
    n k (MA : 'M[R]_(n, k)) (MP : 'M[R]_n) (MObs : 'cV[R]_n)
    (a : Adjustment.t) :
  Adjustment.A a = NdArray MA -> Adjustment.P a = NdArray MP ->
  Adjustment.Obs a = NdArray MObs ->
  normal_matrix MA MP \in unitmx ->
  (0 < Adjustment.dof a)%Z ->
  let a' := (Adjustment.python_lsq_inversion gesv a).1 in
  exists rm : 'cV[R]_n,
    let VtPV := rm^T *m MP *m rm in
    let s02 := (VtPV ord0 ord0 / IZR (Adjustment.dof a))%Re in
    [/\ (Adjustment.python_lsq_inversion gesv a).2 = Ok tt,
        Adjustment.r a' = NdArray rm,
        Adjustment.VtPV a' = NdArray VtPV,
        Adjustment.SDaposteriori a'
        = NdArray (\matrix_(i < 1, j < 1) F64.sqrt (Fin s02))
      & Adjustment.var a'
        = [seq Fin (invmx (normal_matrix MA MP) i i * s02)%Re
          | i <- enum 'I_k]]
    /\ ((0 <= VtPV ord0 ord0)%Re ->
        Adjustment.SDaposteriori a'
        = NdArray (\matrix_(i < 1, j < 1) Fin (sqrt s02))).
Proof.
move=> HA HP HO HN Hdof.
have d0 : IZR (Adjustment.dof a) <> 0%Re.
  by apply: not_0_IZR => e; rewrite e in Hdof.
exists (lsq_residual MA MP MObs).
rewrite (python_lsq_inversion_unit gesv HA HP HO HN) /=.
rewrite /np_divide_int /np_sqrt /amap /= np_multiply_scalar /=.
set rm := lsq_residual _ _ _; set V := rm^T *m MP *m rm.
have sdE : map_mx F64.sqrt
             (map_mx (fun x => F64.div (Fin x)
                                 (Fin (IZR (Adjustment.dof a)))) V)
           = \matrix_(i < 1, j < 1)
               F64.sqrt (Fin (V ord0 ord0 / IZR (Adjustment.dof a))%Re).
  by apply/matrixP => i j; rewrite !mxE !ord1 F64_div_Fin.
split; first split=> //.
- by rewrite sdE.
- rewrite np_diagonal_square; apply: eq_map => i.
  by rewrite !mxE F64_div_Fin.
move=> V0; rewrite sdE.
have s0 : (0 <= V ord0 ord0 / IZR (Adjustment.dof a))%Re.
  apply: Rmult_le_pos => //; apply: Rlt_le; apply: Rinv_0_lt_compat.
  exact: (IZR_lt 0).
by rewrite (F64_sqrt_Fin s0).
Qed.

(** C2 on [one_station]. *)
Lemma python_lsq_inversion_covariance_witness :
  let a' := (Adjustment.python_lsq_inversion exact_pivot one_station).1 in
  exists rm : 'cV[R]_2,
    let VtPV := rm^T *m station_P *m rm in
    let s02 := (VtPV ord0 ord0 / IZR (Adjustment.dof one_station))%Re in
    [/\ (Adjustment.python_lsq_inversion exact_pivot one_station).2 = Ok tt,
        Adjustment.r a' = NdArray rm,
        Adjustment.VtPV a' = NdArray VtPV,
        Adjustment.SDaposteriori a'
        = NdArray (\matrix_(i < 1, j < 1) F64.sqrt (Fin s02))
      & Adjustment.var a'
        = [seq Fin (invmx (normal_matrix station_A station_P) i i * s02)%Re
          | i <- enum 'I_1]]
    /\ ((0 <= VtPV ord0 ord0)%Re ->
        Adjustment.SDaposteriori a'
        = NdArray (\matrix_(i < 1, j < 1) Fin (sqrt s02))).
Proof.
exact: (@python_lsq_inversion_covariance exact_pivot 2 1 station_A station_P
          station_Obs one_station erefl erefl erefl station_unit erefl).
Defined.

(** [unobserved]: a zero column of [A] gives a zero column of [N], which
    no rounding hides; the inversion raises and assigns nothing. *)
Lemma unobserved_LinAlgError :
  Adjustment.python_lsq_inversion exact_pivot unobserved
  = (unobserved, Raise LinAlgError).
Proof.
exact: (@python_lsq_inversion_LinAlgError exact_pivot 2 1 0 station_P
          unobserved erefl erefl unobserved_singular erefl).
Qed.

(** Every row of [no_datum_A] sums to zero. *)
Lemma no_datum_kernel : no_datum_A *m (const_mx 1%Re : 'cV[R]_3) = 0.
Proof.
apply/matrixP => i j; rewrite !mxE !big_ord_recl big_ord0 !mxE /=.
case: i => [[|[|[|[|i]]]] hi] //=;
  by rewrite /GRing.mul /GRing.add /GRing.zero /=; lra.
Qed.

Lemma no_datum_singular : normal_matrix no_datum_A 1%:M \notin unitmx.
Proof.
apply/negP => HN.
have : normal_matrix no_datum_A 1%:M *m (const_mx 1%Re : 'cV[R]_3) = 0.
  by rewrite /normal_matrix -mulmxA no_datum_kernel mulmx0.
move/(congr1 (mulmx (invmx (normal_matrix no_datum_A 1%:M)))).
rewrite mulKmx // mulmx0 => /matrixP /(_ ord0 ord0).
by rewrite !mxE /GRing.zero /=; lra.
Qed.

(** C5, as the code has it.  [python_lsq_inversion] has no test of its
    own for a singular normal matrix [N = A^T P A]: what happens is what
    [numpy.linalg.inv] does.  When its factorisation meets a pivot that
    is exactly zero, the method raises [LinAlgError] and leaves the
    object as it was.  When rounding hides the singularity, the method
    raises nothing: it returns, with [X] computed from the array that
    numpy returned in the place of an inverse. *)
Theorem python_lsq_inversion_singular (gesv : lapack)
    n k (MA : 'M[R]_(n, k)) (MP : 'M[R]_n) (MObs : 'cV[R]_n)
    (a : Adjustment.t) :
  Adjustment.A a = NdArray MA -> Adjustment.P a = NdArray MP ->
  Adjustment.Obs a = NdArray MObs ->
  normal_matrix MA MP \notin unitmx ->
  let out := Adjustment.python_lsq_inversion gesv a in
  match gesv k (normal_matrix MA MP) with
  | None => out = (a, Raise LinAlgError)
  | Some G =>
      out.2 = Ok tt
      /\ Adjustment.X out.1 = NdArray (G *m MA^T *m MP *m MObs)
  end.
Proof.
move=> HA HP HO HN /=.
case Hg: (gesv k (normal_matrix MA MP)) => [G|]; last first.
  exact: (python_lsq_inversion_LinAlgError HA HP HN Hg).
rewrite (python_lsq_inversion_rounded HA HP HO HN Hg) /=.
by rewrite /np_divide_int /amap /= np_multiply_scalar.
Qed.

(** C5 at the failing input [no_datum], with a factorisation that meets
    no zero pivot there: the method returns. *)
Lemma python_lsq_inversion_singular_witness :
  let out := Adjustment.python_lsq_inversion rounded_pivot no_datum in
  out.2 = Ok tt
  /\ Adjustment.X out.1
     = NdArray ((const_mx (45 * 10 ^ 16)%Re : 'M[R]_3) *m no_datum_A^T
                *m 1%:M *m no_datum_Obs).
Proof.
exact: (@python_lsq_inversion_singular rounded_pivot 4 3 no_datum_A 1%:M
          no_datum_Obs no_datum erefl erefl erefl no_datum_singular).
Defined.

(** C10.  [python_lsq_inversion] assigns only [X], [r], [VtPV],
    [SDaposteriori] and [var]: however it ends, every other attribute of
    the object is the one it had, among them [A], [P], [Obs], [dof],
    [deltas], [datums] and [adjustmentoptions]. *)
Theorem python_lsq_inversion_frame (gesv : lapack) (a : Adjustment.t) :
  let a' := (Adjustment.python_lsq_inversion gesv a).1 in
  (exists x rr vr v sd,
     a' = Adjustment.mk (Adjustment.A a) (Adjustment.P a) (Adjustment.Obs a)
            (Adjustment.S a) x rr vr v sd (Adjustment.dof a)
            (Adjustment.n_meters a) (Adjustment.meter_dic a)
            (Adjustment.deltas a) (Adjustment.datums a) (Adjustment.g_dic a)
            (Adjustment.sd_dic a) (Adjustment.netadj_loop_keys a)
            (Adjustment.sta_dic_ls a) (Adjustment.adjustmentoptions a)
            (Adjustment.adjustmentresults a))
  /\ [/\ Adjustment.A a' = Adjustment.A a,
         Adjustment.P a' = Adjustment.P a,
         Adjustment.Obs a' = Adjustment.Obs a
       & Adjustment.dof a' = Adjustment.dof a]
  /\ [/\ Adjustment.deltas a' = Adjustment.deltas a,
         Adjustment.datums a' = Adjustment.datums a
       & Adjustment.adjustmentoptions a' = Adjustment.adjustmentoptions a].
Proof.
move=> a'.
have [x [rr [vr [v [sd e]]]]] :
  exists x rr vr v sd,
     a' = Adjustment.mk (Adjustment.A a) (Adjustment.P a) (Adjustment.Obs a)
            (Adjustment.S a) x rr vr v sd (Adjustment.dof a)
            (Adjustment.n_meters a) (Adjustment.meter_dic a)
            (Adjustment.deltas a) (Adjustment.datums a) (Adjustment.g_dic a)
            (Adjustment.sd_dic a) (Adjustment.netadj_loop_keys a)
            (Adjustment.sta_dic_ls a) (Adjustment.adjustmentoptions a)
            (Adjustment.adjustmentresults a).
  exists (Adjustment.X a'), (Adjustment.r a'), (Adjustment.var a'),
    (Adjustment.VtPV a'), (Adjustment.SDaposteriori a').
  rewrite /a' /Adjustment.python_lsq_inversion /Adjustment.bind
    /Adjustment.get /Adjustment.lift /Adjustment.assign /=.
  by split_results; case: a {a'} => *; reflexivity.
split; first by exists x, rr, vr, v, sd.
by rewrite e; split; split; reflexivity.
Qed.

(* ===================================================================== *)
(** * Runs of [lsq_statistics]                                             *)
(* ===================================================================== *)

Section Statistics.

Import Adjustment.

Local Open Scope R_scope.

Variables (m p : nat) (V : 'M[R]_(m.+1, p.+1)).
Variable a : Adjustment.t.
Hypothesis HV : VtPV a = NdArray V.

Let alpha := AdjustmentOptions.alpha (adjustmentoptions a).

(** The results once [chi2] and [dof] have been stored, lines 238-239. *)
Let stored : AdjustmentResults.t :=
  AdjustmentResults.set_dof (dof a)
    (AdjustmentResults.set_chi2 (Fin (V ord0 ord0)) (adjustmentresults a)).

(** With [dof > 0] and [0 < alpha < 1] every operation is defined and the
    method stores the critical value. *)
Lemma lsq_statistics_run :
  (0 < dof a)%Z -> 0 < alpha < 1 ->
  lsq_statistics a
  = (set_adjustmentresults
       (AdjustmentResults.set_chi2c
          (Fin (chi2_critical alpha (IZR (dof a)))) stored) a,
     Ok tt).
Proof.
move=> /(IZR_lt 0) Hd Halpha.
have Hln := ln_inv_pos Halpha.
rewrite /lsq_statistics /bind /get /lift /assign /= HV getitem2_00 /=.
rewrite -/alpha; set d := IZR (dof a) in Hd *.
have a0 : alpha <> 0 by lra.
have ia0 : 0 < 1 / alpha by apply: Rdiv_lt_0_compat; lra.
have d90 : 9 * d <> 0 by lra.
have q0 : 0 <= 2 / (9 * d) by apply: Rlt_le; apply: Rdiv_lt_0_compat; lra.
have l0 : 0 <= 2 * ln (1 / alpha) by lra.
rewrite (py_truediv_Ok _ a0) (F64_log_Fin ia0) F64_mul_Fin (F64_sqrt_Fin l0).
set t := sqrt _.
have t0 : 0 <= t by apply: sqrt_pos.
have den0 : 1 + d1 * t + d2 * t ^ 2 + d3 * t ^ 3 <> 0.
  by rewrite /d1 /d2 /d3; nra.
rewrite !(py_truediv_Ok _ d90) /= (F64_sqrt_Fin q0); finite_arith.
by rewrite (F64_div_Fin _ den0); finite_arith.
Qed.

(** With [dof = 0] the division [2 / (9 * dof)] of line 246 raises, after
    [chi2] and [dof] have been stored. *)
Lemma lsq_statistics_ZeroDivisionError :
  dof a = 0%Z -> alpha <> 0 ->
  lsq_statistics a
  = (set_adjustmentresults stored a, Raise ZeroDivisionError).
Proof.
move=> Hd a0.
rewrite /lsq_statistics /bind /get /lift /assign /= HV getitem2_00 /=.
rewrite -/alpha (py_truediv_Ok _ a0) /= /stored Hd.
by rewrite Rmult_0_r py_truediv_zero.
Qed.

End Statistics.

(* ===================================================================== *)
(** * The claims about [lsq_statistics]                                    *)
(* ===================================================================== *)

(** C3.  On every adjustment that holds a [VtPV] with an entry [0, 0],
    with [dof > 0] and [0 < alpha < 1], [lsq_statistics] returns and sets
    [adjustmentresults.chi2] to the scalar [VtPV[0][0]] and
    [adjustmentresults.chi2c] to
    [dof (z sqrt(2/(9 dof)) + 1 - 2/(9 dof))^3] for the deviate [z] of
    [alpha]. *)
Theorem lsq_statistics_chi2
    m p (V : 'M[R]_(m.+1, p.+1)) (a : Adjustment.t) :
  let alpha := AdjustmentOptions.alpha (Adjustment.adjustmentoptions a) in
  let dof := IZR (Adjustment.dof a) in
  Adjustment.VtPV a = NdArray V ->
  (0 < Adjustment.dof a)%Z -> (0 < alpha < 1)%Re ->
  let t := sqrt (2 * ln (1 / alpha))%Re in
  let z := (t - (2515517 / 1000000 + 802853 / 1000000 * t
                 + 10328 / 1000000 * t ^ 2)
                / (1 + 1432788 / 1000000 * t + 189269 / 1000000 * t ^ 2
                   + 1308 / 1000000 * t ^ 3))%Re in
  let res := Adjustment.adjustmentresults (Adjustment.lsq_statistics a).1 in
  [/\ (Adjustment.lsq_statistics a).2 = Ok tt,
      AdjustmentResults.chi2 res = Fin (V ord0 ord0)
    & AdjustmentResults.chi2c res
      = Fin (dof * (z * sqrt (2 / (9 * dof)) + 1 - 2 / (9 * dof)) ^ 3)%Re].
Proof.
by move=> alpha dof HV Hd Ha; rewrite (lsq_statistics_run HV Hd Ha).
Qed.

(** C3 on an adjustment with [VtPV = [[2]]], [dof = 1], [alpha = 0.05]. *)
Lemma lsq_statistics_chi2_witness :
  let a := solved 2 1 (5 / 100) in
  let t := sqrt (2 * ln (1 / (5 / 100)))%Re in
  let z := (t - (2515517 / 1000000 + 802853 / 1000000 * t
                 + 10328 / 1000000 * t ^ 2)
                / (1 + 1432788 / 1000000 * t + 189269 / 1000000 * t ^ 2
                   + 1308 / 1000000 * t ^ 3))%Re in
  let res := Adjustment.adjustmentresults (Adjustment.lsq_statistics a).1 in
  [/\ (Adjustment.lsq_statistics a).2 = Ok tt,
      AdjustmentResults.chi2 res
      = Fin ((\matrix_(i < 1, j < 1) nth 0%Re (nth [::] [:: [:: 2%Re]] i) j)
               ord0 ord0)
    & AdjustmentResults.chi2c res
      = Fin (1 * (z * sqrt (2 / (9 * 1)) + 1 - 2 / (9 * 1)) ^ 3)%Re].
Proof.
apply: (@lsq_statistics_chi2 0 0 _ (solved 2 1 (5 / 100)) erefl erefl).
by rewrite /=; lra.
Defined.

(** C4, at the failing input.  On [two_stations] ([dof = 0], the default
    [alpha]) [lsq_statistics] raises [ZeroDivisionError] at line 246: it
    has stored [chi2] and [dof], and [chi2c] keeps the value it had.  The
    report made from these results divides [chi2] by zero and prints a
    verdict: its line 4 shows [nan] and its line 7 is "Chi-test rejected". *)
Theorem lsq_statistics_zero_dof :
  let a' := (Adjustment.lsq_statistics two_stations).1 in
  let res := Adjustment.adjustmentresults a' in
  [/\ (Adjustment.lsq_statistics two_stations).2 = Raise ZeroDivisionError,
      AdjustmentResults.dof res = Some 0%Z,
      AdjustmentResults.chi2c res
      = AdjustmentResults.chi2c (Adjustment.adjustmentresults two_stations)
    & exists report,
        [/\ AdjustmentResults.get_report res = Ok report,
            nth [::] report 4 = [:: Lit sd_label; FmtF "4f" NaN]
          & nth [::] report 7 = chi_line "rejected"]].
Proof.
have a0 : AdjustmentOptions.alpha (Adjustment.adjustmentoptions two_stations)
          <> 0%Re by rewrite /=; lra.
rewrite (@lsq_statistics_ZeroDivisionError 0 0 _ two_stations erefl erefl a0).
split=> //; eexists; split; first by [].
- rewrite /= mxE /= /F64.div eqxx /F64.signed_inf.
  by destruct (Rlt_dec 0 0) as [h|h] => //; lra.
- by rewrite /= /AdjustmentResults.chi_result /= mxE /= /Rltb;
    destruct (Rlt_dec 0 0) as [h|h] => //; lra.
Qed.

(* ===================================================================== *)
(** * The claims about the report                                          *)
(* ===================================================================== *)

(** C6.  For every [AdjustmentResults], [get_report] either raises
    [AttributeError], which it does exactly on an object that has no [dof],
    or returns a report whose line 7 is "Chi-test accepted" if and only if
    [chi2 < chi2c] and "Chi-test rejected" otherwise, the boundary
    [chi2 == chi2c] included; on finite values the comparison is the strict
    order of the reals, and no other line carries a verdict. *)
Theorem get_report_verdict (res : AdjustmentResults.t) :
  let chi2 := AdjustmentResults.chi2 res in
  let chi2c := AdjustmentResults.chi2c res in
  match AdjustmentResults.get_report res with
  | Ok report =>
      [/\ nth [::] report 7 = chi_line "accepted" <-> F64.lt chi2 chi2c,
          nth [::] report 7 = chi_line "rejected" <-> ~~ F64.lt chi2 chi2c,
          chi2 = chi2c -> nth [::] report 7 = chi_line "rejected",
          forall x y, chi2 = Fin x -> chi2c = Fin y ->
            (nth [::] report 7 = chi_line "accepted" <-> (x < y)%Re)
        & forall i, (i < size report)%N -> i != 7 ->
            nth [::] report i <> chi_line "accepted"
            /\ nth [::] report i <> chi_line "rejected"]
  | Raise e => e = AttributeError /\ AdjustmentResults.dof res = None
  end.
Proof.
rewrite /AdjustmentResults.get_report.
case: (AdjustmentResults.dof res) => [d|] //=.
rewrite /AdjustmentResults.chi_result; split.
- by case: F64.lt.
- by case: F64.lt.
- by move=> ->; rewrite F64_lt_irrefl.
- move=> x y -> -> /=; rewrite -Rltb_lt.
  by case: Rltb.
- by do 12?[case=> //].
Qed.

(** C7.  For every [AdjustmentResults] with [dof != 0], [get_report]
    returns a report whose line labelled "SD a posteriori" shows the
    quotient [chi2 / dof] itself; whenever that quotient differs from its
    square root, the square root is not what the line shows. *)
Theorem get_report_sd_ratio (res : AdjustmentResults.t) (d : Z) :
  AdjustmentResults.dof res = Some d -> d <> 0%Z ->
  exists report,
    [/\ AdjustmentResults.get_report res = Ok report,
        nth [::] report 4
        = [:: Lit sd_label;
              FmtF "4f" (F64.div (AdjustmentResults.chi2 res) (Fin (IZR d)))]
      & forall c, AdjustmentResults.chi2 res = Fin c ->
          nth [::] report 4 = [:: Lit sd_label; FmtF "4f" (Fin (c / IZR d))]
          /\ (sqrt (c / IZR d) <> c / IZR d ->
              nth [::] report 4
              <> [:: Lit sd_label; FmtF "4f" (Fin (sqrt (c / IZR d)))])%Re].
Proof.
move=> Hd d0; rewrite /AdjustmentResults.get_report Hd /=.
eexists; split; [by [] | by [] |].
have r0 : IZR d <> 0%Re by apply: not_0_IZR.
move=> c ->; rewrite (F64_div_Fin _ r0); split=> // ne.
by case=> e; apply: ne.
Qed.

(** C7 on results with [chi2 = 2] and [dof = 1]. *)
Lemma get_report_sd_ratio_witness :
  let res := meter_results (Fin 2) (Fin 4) (Some 1%Z) None in
  exists report,
    [/\ AdjustmentResults.get_report res = Ok report,
        nth [::] report 4
        = [:: Lit sd_label; FmtF "4f" (F64.div (Fin 2) (Fin (IZR 1)))]
      & forall c, Fin 2 = Fin c ->
          nth [::] report 4 = [:: Lit sd_label; FmtF "4f" (Fin (c / IZR 1))]
          /\ (sqrt (c / IZR 1) <> c / IZR 1 ->
              nth [::] report 4
              <> [:: Lit sd_label; FmtF "4f" (Fin (sqrt (c / IZR 1)))])%Re].
Proof.
apply: (@get_report_sd_ratio
          (meter_results (Fin 2) (Fin 4) (Some 1%Z) None) 1 erefl).
by [].
Defined.

(* ===================================================================== *)
(** * The claims about [results_string]                                    *)
(* ===================================================================== *)

Section ResultsString.

Import Adjustment.

Lemma mapM_all T U (f : T -> result U) (Q : U -> bool) (l : seq T) ys :
  (forall x y, f x = Ok y -> Q y) -> mapM f l = Ok ys -> all Q ys.
Proof.
move=> fQ; elim: l ys => [|x l IH] ys /=; first by case=> <-.
case fx: (f x) => [y|e] //=; case ml: (mapM f l) => [ys'|e] //= [<-] /=.
by rewrite (fQ _ _ fx) (IH _ ml).
Qed.

Lemma all_flatten T (Q : T -> bool) (ls : seq (seq T)) :
  all (all Q) ls -> all Q (flatten ls).
Proof. by elim: ls => //= l ls IH /andP [hl /IH hls]; rewrite all_cat hl. Qed.

Lemma filter_none T (Q p : T -> bool) (s : seq T) :
  (forall x, Q x -> ~~ p x) -> all Q s -> filter p s = [::].
Proof.
move=> Qp; elim: s => //= x s IH /andP [qx /IH ->].
by rewrite (negbTE (Qp _ qx)).
Qed.

Lemma filter_all T (p : T -> bool) (s : seq T) : all p s -> filter p s = s.
Proof. by elim: s => //= x s IH /andP [-> /IH ->]. Qed.

Lemma all_map_const T U (f : T -> U) (p : U -> bool) (s : seq T) :
  (forall x, p (f x)) -> all p (map f s).
Proof. by move=> pf; elim: s => //= x s ->; rewrite pf. Qed.

Lemma drift_line_plain self start i l :
  drift_line self start i = Ok l -> ~~ is_calibration l.
Proof.
rewrite /drift_line; case: getitem2 => [degree|e] //= [<-].
by case: (degree == _).
Qed.

Lemma loop_lines_plain self loop ls :
  loop_lines self loop = Ok ls -> all (fun l => ~~ is_calibration l) ls.
Proof.
rewrite /loop_lines; case ml: mapM => [ds|e] //= [<-] /=.
exact: (mapM_all (@drift_line_plain self loop.2.1) ml).
Qed.

Lemma loops_plain self loops ls :
  mapM (loop_lines self) loops = Ok ls ->
  all (fun l => ~~ is_calibration l) (flatten ls).
Proof.
move=> ml; apply: all_flatten.
elim: loops ls ml => [|x l IH] ls /=; first by case=> <-.
case fx: loop_lines => [y|e]; last by [].
rewrite /=; case ml: mapM => [ys|e]; last by [].
by case=> <- /=; rewrite (loop_lines_plain fx) (IH _ ml).
Qed.

Lemma get_report_plain res report :
  AdjustmentResults.get_report res = Ok report ->
  all (fun l => ~~ is_calibration l) report.
Proof.
rewrite /AdjustmentResults.get_report.
case: (AdjustmentResults.dof res) => [d|]; last by [].
rewrite /AdjustmentResults.chi_result /=; case=> <-.
by case: F64.lt.
Qed.

Lemma cal_not_specified l :
  starts_with cal_prefix l -> ~~ starts_with specified_prefix l.
Proof.
case: l => [|[s| |] l] //; rewrite /starts_with.
by move=> /(proj1 (String.eqb_eq _ _)) <-.
Qed.

Lemma specified_not_cal l :
  starts_with specified_prefix l -> ~~ starts_with cal_prefix l.
Proof.
case: l => [|[s| |] l] //; rewrite /starts_with.
by move=> /(proj1 (String.eqb_eq _ _)) <-.
Qed.

End ResultsString.

(** C9, as the code has it.  On every adjustment with no free-form text
    and [n_unknowns > 0] for which [results_string] returns lines: the
    lines "Calibration coefficient for meter ..." are those of [cal_dic],
    with value and uncertainty, when [cal_coeff] is set, and there is none
    otherwise; the lines "Specified calibration coefficient for meter ..."
    are those of [meter_cal_dict] when [specify_cal_coeff] is set and
    [cal_coeff] is not, and there is none otherwise; so at most one of the
    two sets appears. *)
Theorem results_string_calibration (a : Adjustment.t) (ls : seq line) :
  let res := Adjustment.adjustmentresults a in
  let cal := AdjustmentOptions.cal_coeff (Adjustment.adjustmentoptions a) in
  let spec :=
    AdjustmentOptions.specify_cal_coeff (Adjustment.adjustmentoptions a) in
  AdjustmentResults.text res = [::] ->
  (0 < AdjustmentResults.n_unknowns res)%Z ->
  Adjustment.results_string a = Ok (Adjustment.Lines ls) ->
  [/\ filter (starts_with cal_prefix) ls
      = if cal then map Adjustment.cal_line (AdjustmentResults.cal_dic res)
        else [::],
      filter (starts_with specified_prefix) ls
      = if ~~ cal && spec
        then map Adjustment.specified_line
               (odflt [::] (AdjustmentResults.meter_cal_dict res))
        else [::]
    & filter (starts_with cal_prefix) ls = [::]
      \/ filter (starts_with specified_prefix) ls = [::]].
Proof.
move=> res cal spec Htext /Z.ltb_lt Hn.
have plainC (s : seq line) :
    all (fun l => ~~ is_calibration l) s ->
    filter (starts_with cal_prefix) s = [::].
  by apply: filter_none => l; rewrite /is_calibration negb_or => /andP [].
have plainS (s : seq line) :
    all (fun l => ~~ is_calibration l) s ->
    filter (starts_with specified_prefix) s = [::].
  by apply: filter_none => l; rewrite /is_calibration negb_or => /andP [].
have calC d :
    filter (starts_with cal_prefix) (map Adjustment.cal_line d)
    = map Adjustment.cal_line d.
  by apply: filter_all; apply: all_map_const.
have calS d :
    filter (starts_with specified_prefix) (map Adjustment.cal_line d) = [::].
  by apply: (filter_none cal_not_specified); exact: all_map_const.
have specS d :
    filter (starts_with specified_prefix) (map Adjustment.specified_line d)
    = map Adjustment.specified_line d.
  by apply: filter_all; apply: all_map_const.
have specC d :
    filter (starts_with cal_prefix) (map Adjustment.specified_line d) = [::].
  by apply: (filter_none specified_not_cal); exact: all_map_const.
rewrite /Adjustment.results_string /Adjustment.results_string_body.
rewrite -/res Htext Hn.
case gr: AdjustmentResults.get_report => [report|e]; last by case: e {gr}.
have /plainC repC := get_report_plain gr.
have /plainS repS := get_report_plain gr.
rewrite [rbind (Ok _) _]/= -/cal -/spec.
have final text_out :
    match
      (text_out1 <~
         (if Adjustment.netadj_loop_keys a is [::] then Ok text_out
          else ls0 <~ mapM (Adjustment.loop_lines a)
                        (Adjustment.netadj_loop_keys a) ;;
               Ok (text_out ++
                   [:: Lit "Network adjustment drift coefficient(s):"]
                     :: flatten ls0)) ;;
       Ok (Adjustment.Lines text_out1))
    with
    | Ok x => Ok x
    | Raise ValueError => Raise ValueError
    | Raise LinAlgError => Raise LinAlgError
    | Raise ZeroDivisionError => Raise ZeroDivisionError
    | Raise IndexError => Raise IndexError
    | _ => Ok Adjustment.EmptyStr
    end = Ok (Adjustment.Lines ls) ->
    exists2 tl, ls = text_out ++ tl & all (fun l => ~~ is_calibration l) tl.
  case: (Adjustment.netadj_loop_keys a) => [|k ks].
    by case=> <-; exists [::]; rewrite ?cats0.
  case ml: mapM => [ls0|e]; last by case: e {ml}.
  case=> <-; eexists; first by [].
  by rewrite /= (loops_plain ml).
rewrite /cal /spec.
case: (AdjustmentOptions.cal_coeff _);
  last case: (AdjustmentOptions.specify_cal_coeff _).
- move=> /final [tl -> /[dup] /plainC tC /plainS tS].
  split; [ | | right].
  + by rewrite !filter_cat repC calC tC cats0.
  + by rewrite !filter_cat repS calS tS.
  + by rewrite !filter_cat repS calS tS.
- case: (AdjustmentResults.meter_cal_dict res) => [d|]; last first.
    by rewrite /=.
  move=> /final [tl -> /[dup] /plainC tC /plainS tS].
  split; [ | | left].
  + by rewrite !filter_cat repC specC tC.
  + by rewrite !filter_cat repS specS tS cats0.
  + by rewrite !filter_cat repC specC tC.
- move=> /final [tl -> /[dup] /plainC tC /plainS tS].
  split; [ | | left].
  + by rewrite !filter_cat repC tC.
  + by rewrite !filter_cat repS tS.
  + by rewrite !filter_cat repC tC.
Qed.

(** C9, as the claim states it, fails on [calibrated true true]: the
    adjustment has no free-form text and [n_unknowns > 0],
    [specify_cal_coeff] is set and [meter_cal_dict] holds a coefficient,
    and [results_string] returns lines none of which is a "Specified
    calibration coefficient" line, because [cal_coeff] is set too. *)
Lemma results_string_both_flags :
  let a := calibrated true true in
  let ls := lines_of (Adjustment.results_string a) in
  [/\ AdjustmentResults.text (Adjustment.adjustmentresults a) = [::],
      (0 < AdjustmentResults.n_unknowns (Adjustment.adjustmentresults a))%Z
    & Adjustment.results_string a = Ok (Adjustment.Lines ls)]
  /\ [/\ AdjustmentOptions.specify_cal_coeff (Adjustment.adjustmentoptions a),
         AdjustmentResults.meter_cal_dict (Adjustment.adjustmentresults a)
         = Some [:: ("B44"%string, 1%Re)]
       & ~~ has (starts_with specified_prefix) ls].
Proof. by split; split. Qed.

Lemma calibrated_lines cal spec :
  Adjustment.results_string (calibrated cal spec)
  = Ok (Adjustment.Lines
          (lines_of (Adjustment.results_string (calibrated cal spec)))).
Proof.
rewrite /Adjustment.results_string /Adjustment.results_string_body.
by case: cal; case: spec.
Qed.

(** C9 on [calibrated true false]. *)
Lemma results_string_calibration_witness :
  let a := calibrated true false in
  let ls := lines_of (Adjustment.results_string a) in
  let res := Adjustment.adjustmentresults a in
  [/\ filter (starts_with cal_prefix) ls
      = if true then map Adjustment.cal_line (AdjustmentResults.cal_dic res)
        else [::],
      filter (starts_with specified_prefix) ls
      = if ~~ true && false
        then map Adjustment.specified_line
               (odflt [::] (AdjustmentResults.meter_cal_dict res))
        else [::]
    & filter (starts_with cal_prefix) ls = [::]
      \/ filter (starts_with specified_prefix) ls = [::]].
Proof.
apply: (@results_string_calibration (calibrated true false)
          (lines_of (Adjustment.results_string (calibrated true false)))).
- reflexivity.
- reflexivity.
- exact: calibrated_lines.
Defined.

(* ===================================================================== *)
(** * The claim about the growth of the critical value                     *)
(* ===================================================================== *)

Section CriticalValue.

Import Adjustment.

Local Open Scope R_scope.

Lemma has_scalarP (v : ndarray R) :
  has_scalar v ->
  exists m p (V : 'M[R]_(m.+1, p.+1)), v = NdArray V.
Proof. by case: v => [[|m] [|p] V] //= _; exists m, p, V. Qed.

(** The critical value [lsq_statistics] stores. *)
Lemma chi2c_afterE (a : Adjustment.t) :
  has_scalar (VtPV a) -> (0 < dof a)%Z ->
  0 < AdjustmentOptions.alpha (adjustmentoptions a) < 1 ->
  chi2c_after a
  = Fin (chi2_critical (AdjustmentOptions.alpha (adjustmentoptions a))
           (IZR (dof a))).
Proof.
move=> /has_scalarP [m [p [V HV]]] Hd Ha.
by rewrite /chi2c_after (lsq_statistics_run HV Hd Ha).
Qed.

Lemma ln_inv_exp c : ln (1 / exp c) = - c.
Proof.
by rewrite /Rdiv Rmult_1_l (ln_Rinv _ (exp_pos c)) ln_exp.
Qed.

Lemma exp_neg_lt1 c : c < 0 -> 0 < exp c < 1.
Proof.
move=> c0; split; first exact: exp_pos.
by rewrite -exp_0; apply: exp_increasing.
Qed.

Lemma exp_m40 : exp (-40) <= 5 / 100.
Proof.
have h := exp_ineq1_le 40; have p := exp_pos 40.
have -> : exp (-40) = / exp 40 by rewrite -exp_Ropp; congr exp; lra.
apply: (Rmult_le_reg_r (exp 40)) => //.
by rewrite Rinv_l; lra.
Qed.

(** The deviate of [alpha = exp(-200)] is that of [t = 20]. *)
Lemma normal_deviate_m200 :
  normal_deviate (exp (-200)) = 20 - rational_tail 20.
Proof.
rewrite /normal_deviate ln_inv_exp.
have -> : 2 * - -200 = 20 * 20 by lra.
by rewrite sqrt_square; lra.
Qed.

(** With that deviate 18 degrees of freedom give a smaller critical value
    than 8. *)
Lemma chi2_critical_m200 :
  chi2_critical (exp (-200)) 18 < chi2_critical (exp (-200)) 8.
Proof.
rewrite /chi2_critical normal_deviate_m200 /wilson_hilferty.
have -> : 2 / (9 * 18) = (1 / 9) * (1 / 9) by field.
have -> : 2 / (9 * 8) = (1 / 6) * (1 / 6) by field.
rewrite !sqrt_square; try lra.
by rewrite /rational_tail; lra.
Qed.

End CriticalValue.

(** C8, as the code has it.  For two adjustments on which
    [lsq_statistics] can read [VtPV[0][0]]:
    (1) with the same [alpha], [exp(-40) <= alpha < 1], and
        [5 <= dof1 < dof2], the critical values are finite and the one of
        [dof2] is the greater;
    (2) with the same [dof >= 5] and [0 < alpha2 < alpha1 < 1], the
        critical values are finite and the one of the smaller [alpha2] is
        the greater. *)
Theorem chi2c_monotone :
  (forall a1 a2 : Adjustment.t,
     let alpha a :=
       AdjustmentOptions.alpha (Adjustment.adjustmentoptions a) in
     has_scalar (Adjustment.VtPV a1) -> has_scalar (Adjustment.VtPV a2) ->
     alpha a1 = alpha a2 -> (exp (-40) <= alpha a1 < 1)%Re ->
     (5 <= Adjustment.dof a1 < Adjustment.dof a2)%Z ->
     exists c1 c2,
       [/\ chi2c_after a1 = Fin c1, chi2c_after a2 = Fin c2
         & (c1 < c2)%Re])
  /\ (forall a1 a2 : Adjustment.t,
     let alpha a :=
       AdjustmentOptions.alpha (Adjustment.adjustmentoptions a) in
     has_scalar (Adjustment.VtPV a1) -> has_scalar (Adjustment.VtPV a2) ->
     Adjustment.dof a1 = Adjustment.dof a2 -> (5 <= Adjustment.dof a1)%Z ->
     (0 < alpha a2 < alpha a1)%Re -> (alpha a1 < 1)%Re ->
     exists c1 c2,
       [/\ chi2c_after a1 = Fin c1, chi2c_after a2 = Fin c2
         & (c1 < c2)%Re]).
Proof.
split=> a1 a2 alpha V1 V2.
- move=> ea [a40 a1lt] [d5 d12].
  have e0 := exp_pos (-40).
  have r5 : (5 <= IZR (Adjustment.dof a1))%Re by apply: (IZR_le 5).
  have r12 := IZR_lt _ _ d12.
  rewrite !chi2c_afterE //; try lia; rewrite -/(alpha a1) -/(alpha a2) -?ea;
    try lra.
  eexists; eexists; split; [reflexivity | reflexivity |].
  apply: wilson_hilferty_incr_dof; last by split.
  exact: normal_deviate_bounds.
- move=> ed d5 [a20 a21] a1lt.
  have r5 : (5 <= IZR (Adjustment.dof a1))%Re by apply: (IZR_le 5).
  rewrite !chi2c_afterE //; try lia; rewrite -/(alpha a1) -/(alpha a2) -?ed;
    try lra.
  eexists; eexists; split; [reflexivity | reflexivity |].
  apply: wilson_hilferty_incr_z; first lra.
  exact: normal_deviate_decr.
Qed.

(** C8 on adjustments with 5 and 6 degrees of freedom at [alpha = 0.05],
    and with [alpha = 0.05] and [alpha = 0.01] at 5 degrees of freedom. *)
Lemma chi2c_monotone_witness :
  (exists c1 c2,
     [/\ chi2c_after (solved 2 5 (5 / 100)) = Fin c1,
         chi2c_after (solved 2 6 (5 / 100)) = Fin c2
       & (c1 < c2)%Re])
  /\ (exists c1 c2,
     [/\ chi2c_after (solved 2 5 (5 / 100)) = Fin c1,
         chi2c_after (solved 2 5 (1 / 100)) = Fin c2
       & (c1 < c2)%Re]).
Proof.
split.
- apply: (proj1 chi2c_monotone (solved 2 5 (5 / 100)) (solved 2 6 (5 / 100)));
    rewrite /=; try reflexivity; try lia.
  by split; [exact: exp_m40 | lra].
- apply: (proj2 chi2c_monotone (solved 2 5 (5 / 100)) (solved 2 5 (1 / 100)));
    rewrite /=; try reflexivity; try lia; lra.
Defined.

(** C8, as the claim states it, fails for a significance level that is
    extreme: at [alpha = exp(-200)] the critical value of 18 degrees of
    freedom is below that of 8. *)
Lemma chi2c_decreases_in_dof :
  let a1 := solved 2 8 (exp (-200)) in
  let a2 := solved 2 18 (exp (-200)) in
  let alpha a := AdjustmentOptions.alpha (Adjustment.adjustmentoptions a) in
  [/\ alpha a1 = alpha a2, (0 < alpha a1 < 1)%Re,
      (5 <= Adjustment.dof a1 < Adjustment.dof a2)%Z
    & F64.lt (chi2c_after a2) (chi2c_after a1)].
Proof.
have a01 : (0 < exp (-200) < 1)%Re by apply: exp_neg_lt1; lra.
split=> //.
rewrite !chi2c_afterE //= /Rltb.
destruct (Rlt_dec _ _) as [h|h] => //.
by case: h; exact: chi2_critical_m200.
Qed.

(* ===================================================================== *)
(** * Further properties of [python_lsq_inversion]                         *)
(* ===================================================================== *)

Section InversionProperties.

Import Adjustment.

Lemma dot_ValueError (a b : ndarray R) :
  nrows b != ncols a -> dot a b = Raise ValueError.
Proof. by rewrite /dot; case: eqP. Qed.

Lemma dot_shape (a b c : ndarray R) :
  dot a b = Ok c ->
  [/\ nrows b = ncols a, nrows c = nrows a & ncols c = ncols b].
Proof. by rewrite /dot; case: eqP => // e [<-]. Qed.

Lemma signed_inf_finite x : is_finite (F64.signed_inf x) = false.
Proof.
rewrite /F64.signed_inf.
by destruct (Rlt_dec 0 x) as [h|h] => //; destruct (Rlt_dec x 0).
Qed.

Lemma mul_signed_inf_finite y x :
  is_finite (F64.mul (Fin y) (F64.signed_inf x)) = false.
Proof.
rewrite /F64.signed_inf.
destruct (Rlt_dec 0 x) as [h|h]; first by rewrite /F64.mul signed_inf_finite.
destruct (Rlt_dec x 0) as [h'|h'] => //.
by rewrite /F64.mul signed_inf_finite.
Qed.

Lemma sqrt_signed_inf_finite x :
  is_finite (F64.sqrt (F64.signed_inf x)) = false.
Proof.
rewrite /F64.signed_inf.
by destruct (Rlt_dec 0 x) as [h|h] => //; destruct (Rlt_dec x 0).
Qed.

Lemma sum_nonneg (I : Type) (s : seq I) (F : I -> R) :
  (forall i, 0 <= F i)%Re -> (0 <= \sum_(i <- s) F i)%Re.
Proof.
move=> F0; elim/big_ind: _ => //; first exact: Rle_refl.
by move=> x y x0 y0; apply: Rplus_le_le_0_compat.
Qed.

(** A quadratic form with non-negative diagonal weights is not negative. *)
Lemma quadratic_form_diag n (w : 'rV[R]_n) (v : 'cV[R]_n) :
  (forall i, 0 <= w ord0 i)%Re ->
  (0 <= (v^T *m diag_mx w *m v) ord0 ord0)%Re.
Proof.
move=> w0; rewrite mxE; rewrite big_seq_cond -big_seq_cond.
apply: sum_nonneg => i; rewrite mul_mx_diag !mxE.
rewrite /GRing.mul /=.
have -> : (v i ord0 * w ord0 i * v i ord0
           = w ord0 i * (v i ord0 * v i ord0))%Re by ring.
by apply: Rmult_le_pos => //; exact: Rle_0_sqr.
Qed.

Lemma station_w_unit : normal_matrix station_A (diag_mx station_w) \in unitmx.
Proof. by rewrite /station_w diag_const_mx; exact: station_unit. Qed.

Lemma eye_unit : normal_matrix (1%:M : 'M[R]_2) 1%:M \in unitmx.
Proof. by rewrite /normal_matrix trmx1 !mulmx1 unitmx1. Qed.

(** One step of a second run of a method: an expression that the first
    run evaluated has the same outcome. *)
Ltac rerun_step :=
  match goal with
  | E : ?c = _ |- context [match ?c with Ok _ => _ | Raise _ => _ end] =>
      rewrite E; simpl
  | |- context [match ?c with Ok _ => _ | Raise _ => _ end] =>
      lazymatch c with
      | context [fst] => fail
      | _ => let E := fresh "E" in destruct c eqn:E; simpl
      end
  end.

(** X1.  On every adjustment with consistent dimensions and an invertible
    normal matrix, the [X] and the [r] that [python_lsq_inversion] stores
    satisfy the normal equations [A^T P A X = A^T P Obs], and the residual
    is orthogonal to the columns of [A] in the metric of the weights:
    [A^T P r = 0]. *)
Theorem python_lsq_inversion_normal_equations (gesv : lapack)
    n k q (MA : 'M[R]_(n, k)) (MP : 'M[R]_n) (MObs : 'M[R]_(n, q))
    (a : Adjustment.t) :
  A a = NdArray MA -> P a = NdArray MP -> Obs a = NdArray MObs ->
  normal_matrix MA MP \in unitmx ->
  let a' := (python_lsq_inversion gesv a).1 in
  exists (Xm : 'M[R]_(k, q)) (rm : 'M[R]_(n, q)),
    [/\ X a' = NdArray Xm, r a' = NdArray rm,
        (MA^T *m MP *m MA) *m Xm = MA^T *m MP *m MObs
      & MA^T *m MP *m rm = 0].
Proof.
move=> HA HP HO HN.
exists (lsq_solution MA MP MObs), (lsq_residual MA MP MObs).
rewrite (python_lsq_inversion_unit gesv HA HP HO HN) /=.
have ne := lsq_solution_normal_equations MObs HN.
split.
- by case: np_multiply.
- by case: np_multiply.
- by rewrite -/(normal_matrix MA MP) ne mulmxA.
- rewrite /lsq_residual mulmxBr mulmxA -/(normal_matrix MA MP) ne mulmxA.
  by rewrite subrr.
Qed.

(** X1 on [one_station]. *)
Lemma python_lsq_inversion_normal_equations_witness :
  let a' := (python_lsq_inversion exact_pivot one_station).1 in
  exists (Xm : 'M[R]_(1, 1)) (rm : 'M[R]_(2, 1)),
    [/\ X a' = NdArray Xm, r a' = NdArray rm,
        (station_A^T *m station_P *m station_A) *m Xm
        = station_A^T *m station_P *m station_Obs
      & station_A^T *m station_P *m rm = 0].
Proof.
exact: (@python_lsq_inversion_normal_equations exact_pivot 2 1 1 station_A
          station_P station_Obs one_station erefl erefl erefl station_unit).
Defined.

(** X2.  When the observations are fitted exactly by some [x0]
    ([Obs = A x0]) and the normal matrix is invertible,
    [python_lsq_inversion] recovers [x0]: [X] is [x0], the residuals [r]
    are zero and [VtPV] is zero. *)
Theorem python_lsq_inversion_exact_fit (gesv : lapack)
    n k q (MA : 'M[R]_(n, k)) (MP : 'M[R]_n) (x0 : 'M[R]_(k, q))
    (a : Adjustment.t) :
  A a = NdArray MA -> P a = NdArray MP -> Obs a = NdArray (MA *m x0) ->
  normal_matrix MA MP \in unitmx ->
  let a' := (python_lsq_inversion gesv a).1 in
  [/\ X a' = NdArray x0, r a' = NdArray (0 : 'M[R]_(n, q))
    & VtPV a' = NdArray (0 : 'M[R]_q)].
Proof.
move=> HA HP HO HN.
rewrite (python_lsq_inversion_unit gesv HA HP HO HN) /=.
have eX : lsq_solution MA MP (MA *m x0) = x0.
  rewrite /lsq_solution.
  have -> : MA^T *m (MP *m (MA *m x0)) = normal_matrix MA MP *m x0.
    by rewrite /normal_matrix !mulmxA.
  by rewrite mulKmx.
have er : lsq_residual MA MP (MA *m x0) = 0.
  by rewrite /lsq_residual eX subrr.
rewrite eX er trmx0 !mul0mx.
by split; case: np_multiply.
Qed.

(** X2 on [exact_station]. *)
Lemma python_lsq_inversion_exact_fit_witness :
  let a' := (python_lsq_inversion exact_pivot exact_station).1 in
  [/\ X a' = NdArray ((5%Re)%:M : 'M[R]_1),
      r a' = NdArray (0 : 'M[R]_(2, 1))
    & VtPV a' = NdArray (0 : 'M[R]_1)].
Proof.
exact: (@python_lsq_inversion_exact_fit exact_pivot 2 1 1 station_A station_P
          (5%Re)%:M exact_station erefl erefl erefl station_unit).
Defined.

(** X3.  When the weight matrix [P] is not square of the size of the rows
    of [A], [python_lsq_inversion] raises [ValueError] (numpy's "shapes
    not aligned") and leaves the object as it was. *)
Theorem python_lsq_inversion_weight_shape
    (gesv : lapack) (a : Adjustment.t) :
  (nrows (P a) != nrows (A a)) || (ncols (P a) != nrows (A a)) ->
  python_lsq_inversion gesv a = (a, Raise ValueError).
Proof.
rewrite /python_lsq_inversion /bind /get /lift /assign /=.
case d1: (dot (np_transpose (A a)) (P a)) => [t1|e] /=.
  have [/= e1 _ e2] := dot_shape d1.
  rewrite e1 eqxx /= => ne.
  by rewrite dot_ValueError // e2 eq_sym.
move: d1; rewrite /dot /=; case: eqP => // ne [<-] _.
by [].
Qed.

(** X3 on [misweighted]. *)
Lemma python_lsq_inversion_weight_shape_witness :
  python_lsq_inversion exact_pivot misweighted
  = (misweighted, Raise ValueError).
Proof.
exact: (@python_lsq_inversion_weight_shape exact_pivot misweighted isT).
Defined.

(** X4.  When [Obs] has another number of rows than [A] (with [P]
    consistent and the normal matrix invertible), [python_lsq_inversion]
    raises [ValueError] and leaves the object as it was: [X] is not
    assigned. *)
Theorem python_lsq_inversion_obs_shape (gesv : lapack)
    n k p q (MA : 'M[R]_(n, k)) (MP : 'M[R]_n) (MObs : 'M[R]_(p, q))
    (a : Adjustment.t) :
  A a = NdArray MA -> P a = NdArray MP -> Obs a = NdArray MObs ->
  normal_matrix MA MP \in unitmx -> p != n ->
  python_lsq_inversion gesv a = (a, Raise ValueError).
Proof.
move=> HA HP HO HN pn.
rewrite /python_lsq_inversion /bind /get /lift /assign /=.
rewrite HA HP HO /np_transpose /= dot_mk /= dot_mk /=.
rewrite linalg_inv_unit //= dot_mk /= dot_mk /=.
by rewrite dot_mismatch.
Qed.

(** X4 on [misobserved]. *)
Lemma python_lsq_inversion_obs_shape_witness :
  python_lsq_inversion exact_pivot misobserved
  = (misobserved, Raise ValueError).
Proof.
exact: (@python_lsq_inversion_obs_shape exact_pivot 2 1 3 1 station_A
          station_P 0 misobserved erefl erefl erefl station_unit isT).
Defined.

(** X5.  With [dof = 0] (an observation vector, an invertible normal
    matrix) [python_lsq_inversion] does not raise: numpy's division by
    the integer 0 gives [inf] or [nan].  [X] and [r] are the solution and
    its residual, while [SDaposteriori] and every entry of [var] are not
    finite. *)
Theorem python_lsq_inversion_zero_dof (gesv : lapack)
    n k (MA : 'M[R]_(n, k)) (MP : 'M[R]_n) (MObs : 'cV[R]_n)
    (a : Adjustment.t) :
  A a = NdArray MA -> P a = NdArray MP -> Obs a = NdArray MObs ->
  normal_matrix MA MP \in unitmx -> dof a = 0%Z ->
  let a' := (python_lsq_inversion gesv a).1 in
  [/\ (python_lsq_inversion gesv a).2 = Ok tt,
      X a' = NdArray (lsq_solution MA MP MObs),
      r a' = NdArray (lsq_residual MA MP MObs),
      exists2 s : float64,
        SDaposteriori a' = NdArray (\matrix_(i < 1, j < 1) s)
        & ~~ is_finite s
    & size (var a') = k /\ all (fun v => ~~ is_finite v) (var a')].
Proof.
move=> HA HP HO HN Hd.
rewrite (python_lsq_inversion_unit gesv HA HP HO HN) Hd /=.
rewrite /np_divide_int /np_sqrt /amap /= np_multiply_scalar /=.
set V := (_^T *m _ *m _).
have e0 x : F64.div (Fin x) (Fin 0%Re) = F64.signed_inf x.
  by rewrite /F64.div eqxx.
split=> //.
- exists (F64.sqrt (F64.signed_inf (V ord0 ord0))).
    by congr NdArray; apply/matrixP => i j; rewrite !mxE !ord1 e0.
  by rewrite sqrt_signed_inf_finite.
- rewrite np_diagonal_square size_map size_enum_ord; split=> //.
  rewrite all_map; apply/allP => i _ /=.
  by rewrite !mxE e0 mul_signed_inf_finite.
Qed.

(** X5 on [station_dof0]. *)
Lemma python_lsq_inversion_zero_dof_witness :
  let a' := (python_lsq_inversion exact_pivot station_dof0).1 in
  [/\ (python_lsq_inversion exact_pivot station_dof0).2 = Ok tt,
      X a' = NdArray (lsq_solution station_A station_P station_Obs),
      r a' = NdArray (lsq_residual station_A station_P station_Obs),
      exists2 s : float64,
        SDaposteriori a' = NdArray (\matrix_(i < 1, j < 1) s)
        & ~~ is_finite s
    & size (var a') = 1%N /\ all (fun v => ~~ is_finite v) (var a')].
Proof.
exact: (@python_lsq_inversion_zero_dof exact_pivot 2 1 station_A station_P
          station_Obs station_dof0 erefl erefl erefl station_unit erefl).
Defined.

(** X6.  [python_lsq_inversion] is idempotent: it reads only [A], [P],
    [Obs] and [dof], which it does not assign, so a second call on the
    object the first call left ends the same way and leaves the same
    object, whether the first call returned or raised. *)
Theorem python_lsq_inversion_idempotent
    (gesv : lapack) (a : Adjustment.t) :
  python_lsq_inversion gesv (python_lsq_inversion gesv a).1
  = python_lsq_inversion gesv a.
Proof.
rewrite /python_lsq_inversion /bind /get /lift /assign /=.
repeat rerun_step.
all: by destruct a.
Qed.

(** X7.  With an observation matrix of [q] columns for [k] unknowns,
    where [q], [k] and 1 are pairwise different, [python_lsq_inversion]
    assigns [X] and [r] and then raises [ValueError] at the product
    [inv(N) * var_post_norm], a [k x k] array times a [q x q] array that
    do not broadcast: [var] keeps its old value. *)
Theorem python_lsq_inversion_matrix_obs (gesv : lapack)
    n k q (MA : 'M[R]_(n, k)) (MP : 'M[R]_n) (MObs : 'M[R]_(n, q))
    (a : Adjustment.t) :
  A a = NdArray MA -> P a = NdArray MP -> Obs a = NdArray MObs ->
  normal_matrix MA MP \in unitmx ->
  [&& q != k, q != 1 & k != 1]%N ->
  let a' := (python_lsq_inversion gesv a).1 in
  [/\ (python_lsq_inversion gesv a).2 = Raise ValueError,
      X a' = NdArray (lsq_solution MA MP MObs),
      r a' = NdArray (lsq_residual MA MP MObs)
    & var a' = var a].
Proof.
move=> HA HP HO HN /and3P [qk q1 k1].
rewrite (python_lsq_inversion_unit gesv HA HP HO HN) /=.
rewrite /np_multiply /broadcast /np_divide_int /amap /= /bdim.
by rewrite eq_sym (negbTE qk) (negbTE k1) (negbTE q1).
Qed.

(** X7 on [three_epochs]. *)
Lemma python_lsq_inversion_matrix_obs_witness :
  let a' := (python_lsq_inversion exact_pivot three_epochs).1 in
  [/\ (python_lsq_inversion exact_pivot three_epochs).2 = Raise ValueError,
      X a' = NdArray (lsq_solution (1%:M : 'M[R]_2) 1%:M (0 : 'M[R]_(2, 3))),
      r a' = NdArray (lsq_residual (1%:M : 'M[R]_2) 1%:M (0 : 'M[R]_(2, 3)))
    & var a' = var three_epochs].
Proof.
exact: (@python_lsq_inversion_matrix_obs exact_pivot 2 2 3 1%:M 1%:M 0
          three_epochs erefl erefl erefl eye_unit isT).
Defined.

(** X8.  With diagonal weights that are not negative (an invertible
    normal matrix, [dof > 0]), the [VtPV] that [python_lsq_inversion]
    stores is a 1 x 1 array whose entry is not negative, so
    [SDaposteriori] is the real square root of [VtPV / dof] and never
    [nan]. *)
Theorem python_lsq_inversion_diag_weights (gesv : lapack)
    n k (MA : 'M[R]_(n, k)) (w : 'rV[R]_n) (MObs : 'cV[R]_n)
    (a : Adjustment.t) :
  A a = NdArray MA -> P a = NdArray (diag_mx w) -> Obs a = NdArray MObs ->
  (forall i, 0 <= w ord0 i)%Re ->
  normal_matrix MA (diag_mx w) \in unitmx -> (0 < dof a)%Z ->
  let a' := (python_lsq_inversion gesv a).1 in
  exists v : R,
    [/\ VtPV a' = NdArray (v%:M : 'M[R]_1), (0 <= v)%Re
      & SDaposteriori a'
        = NdArray (\matrix_(i < 1, j < 1) Fin (sqrt (v / IZR (dof a))))].
Proof.
move=> HA HP HO w0 HN Hd.
have d0 : IZR (dof a) <> 0%Re.
  by apply: not_0_IZR => e; rewrite e in Hd.
set rm := lsq_residual MA (diag_mx w) MObs.
have v0 := quadratic_form_diag rm w0.
exists ((rm^T *m diag_mx w *m rm) ord0 ord0).
rewrite (python_lsq_inversion_unit gesv HA HP HO HN) /=.
rewrite /np_divide_int /np_sqrt /amap /= np_multiply_scalar /= -/rm.
move: (rm^T *m diag_mx w *m rm) v0 => V v0.
have s0 : (0 <= V ord0 ord0 / IZR (dof a))%Re.
  apply: Rmult_le_pos => //; apply: Rlt_le; apply: Rinv_0_lt_compat.
  exact: (IZR_lt 0).
split=> //.
- by congr NdArray; apply/matrixP => i j; rewrite !ord1 mxE eqxx mulr1n.
- congr NdArray; apply/matrixP => i j.
  by rewrite !ord1 !mxE F64_div_Fin // F64_sqrt_Fin.
Qed.

Lemma station_w_nonneg i : (0 <= station_w ord0 i)%Re.
Proof. by rewrite /station_w mxE; lra. Qed.

(** X8 on [weighted_station]. *)
Lemma python_lsq_inversion_diag_weights_witness :
  let a' := (python_lsq_inversion exact_pivot weighted_station).1 in
  exists v : R,
    [/\ VtPV a' = NdArray (v%:M : 'M[R]_1), (0 <= v)%Re
      & SDaposteriori a'
        = NdArray (\matrix_(i < 1, j < 1)
                     Fin (sqrt (v / IZR (dof weighted_station))))].
Proof.
exact: (@python_lsq_inversion_diag_weights exact_pivot 2 1 station_A station_w
          station_Obs weighted_station erefl erefl erefl station_w_nonneg
          station_w_unit erefl).
Defined.

End InversionProperties.

(* ===================================================================== *)
(** * Further properties of [lsq_statistics] and [get_report]              *)
(* ===================================================================== *)

Section StatisticsProperties.

Import Adjustment.

Local Open Scope R_scope.

Lemma F64_mul_NaN x : F64.mul x NaN = NaN /\ F64.mul NaN x = NaN.
Proof. by case: x. Qed.

Lemma F64_sub_NaN x : F64.sub NaN x = NaN.
Proof. by []. Qed.

(** X9.  [lsq_statistics] assigns only [chi2], [chi2c] and [dof] of
    [adjustmentresults]: however it ends, every other attribute of the
    results and every attribute of the adjustment itself is the one it
    had. *)
Theorem lsq_statistics_frame (a : Adjustment.t) :
  let a' := (lsq_statistics a).1 in
  let res := adjustmentresults a in
  exists c2 c2c d,
    a' = set_adjustmentresults
           (AdjustmentResults.mk
              (AdjustmentResults.n_deltas res)
              (AdjustmentResults.n_deltas_notused res)
              (AdjustmentResults.n_datums res)
              (AdjustmentResults.n_datums_notused res)
              (AdjustmentResults.n_unknowns res)
              (AdjustmentResults.max_dg_residual res)
              (AdjustmentResults.min_dg_residual res)
              (AdjustmentResults.max_datum_residual res)
              (AdjustmentResults.min_datum_residual res)
              (AdjustmentResults.avg_stdev res)
              c2 c2c
              (AdjustmentResults.cal_dic res)
              (AdjustmentResults.netadj_drift_dic res)
              (AdjustmentResults.text res) d
              (AdjustmentResults.meter_cal_dict res)) a.
Proof.
move=> a' res.
exists (AdjustmentResults.chi2 (adjustmentresults a')),
  (AdjustmentResults.chi2c (adjustmentresults a')),
  (AdjustmentResults.dof (adjustmentresults a')).
rewrite /a' /res /lsq_statistics /bind /get /lift /assign /=.
by split_results;
   case: a {a' res} => [? ? ? ? ? ? ? ? ? ? ? ? ? ? ? ? ? ? ? []].
Qed.

(** X10.  With a significance level [alpha = 0], [lsq_statistics] raises
    [ZeroDivisionError] at [1 / alpha], after it stored [chi2] and [dof]:
    the results then carry the [dof] of the adjustment and the critical
    value [chi2c] of before the call. *)
Theorem lsq_statistics_alpha_zero (a : Adjustment.t) :
  has_scalar (VtPV a) ->
  AdjustmentOptions.alpha (adjustmentoptions a) = 0 ->
  let a' := (lsq_statistics a).1 in
  [/\ (lsq_statistics a).2 = Raise ZeroDivisionError,
      AdjustmentResults.dof (adjustmentresults a') = Some (dof a)
    & AdjustmentResults.chi2c (adjustmentresults a')
      = AdjustmentResults.chi2c (adjustmentresults a)].
Proof.
move=> /has_scalarP [m [p [V HV]]] a0.
rewrite /lsq_statistics /bind /get /lift /assign /= HV getitem2_00 /=.
by rewrite a0 py_truediv_zero.
Qed.

(** X10 on an adjustment with [VtPV = [[3]]], [dof = 2] and [alpha = 0]. *)
Lemma lsq_statistics_alpha_zero_witness :
  let a' := (lsq_statistics (solved 3 2 0)).1 in
  [/\ (lsq_statistics (solved 3 2 0)).2 = Raise ZeroDivisionError,
      AdjustmentResults.dof (adjustmentresults a') = Some 2%Z
    & AdjustmentResults.chi2c (adjustmentresults a') = Fin 0].
Proof. exact: (@lsq_statistics_alpha_zero (solved 3 2 0) isT erefl). Defined.

(** X11.  With a significance level outside [0, 1] or a negative [dof]
    (and [alpha], [dof] not zero), [lsq_statistics] returns without
    raising and stores [chi2c = nan]: a square root or a logarithm of a
    negative number.  Every comparison with [nan] is false, so
    [get_report] then says "Chi-test rejected" whatever [chi2] is. *)
Theorem lsq_statistics_nan (a : Adjustment.t) :
  let alpha := AdjustmentOptions.alpha (adjustmentoptions a) in
  has_scalar (VtPV a) -> dof a <> 0%Z -> alpha <> 0 ->
  alpha < 0 \/ 1 < alpha \/ (dof a < 0)%Z ->
  let res := adjustmentresults (lsq_statistics a).1 in
  [/\ (lsq_statistics a).2 = Ok tt,
      AdjustmentResults.chi2c res = NaN
    & exists2 report, AdjustmentResults.get_report res = Ok report
                    & nth [::] report 7 = chi_line "rejected"].
Proof.
move=> alpha /has_scalarP [m [p [V HV]]] d0 a0 dom.
have rd0 : 9 * IZR (dof a) <> 0.
  by have := not_0_IZR _ d0; lra.
rewrite /lsq_statistics /bind /get /lift /assign /= HV getitem2_00 /=.
rewrite -/alpha (py_truediv_Ok _ a0) /= !(py_truediv_Ok _ rd0) /=.
set t := F64.sqrt _; set s := F64.sqrt _.
have nan : t = NaN \/ s = NaN.
  case: dom => [an|[a1|dn]].
  - left; rewrite /t /F64.log.
    have q0 : 1 / alpha < 0.
      by rewrite /Rdiv Rmult_1_l; apply: Rinv_lt_0_compat.
    by destruct (Rlt_dec (1 / alpha) 0) as [h|h] => //.
  - left; rewrite /t.
    have q0 : 0 < 1 / alpha by apply: Rdiv_lt_0_compat; lra.
    have l0 : ln (1 / alpha) < 0.
      rewrite -ln_1; apply: ln_increasing => //.
      rewrite /Rdiv Rmult_1_l -[X in _ < X]Rinv_1.
      by apply: Rinv_lt_contravar; lra.
    rewrite (F64_log_Fin q0) F64_mul_Fin /F64.sqrt.
    by destruct (Rlt_dec (2 * ln (1 / alpha)) 0) as [h|h] => //; lra.
  - right; rewrite /s /F64.sqrt.
    have rd : IZR (dof a) < 0 by apply: (IZR_lt _ 0).
    have q0 : 2 / (9 * IZR (dof a)) < 0.
      rewrite /Rdiv; apply: Rmult_pos_neg; first lra.
      by apply: Rinv_lt_0_compat; lra.
    by destruct (Rlt_dec (2 / (9 * IZR (dof a))) 0) as [h|h] => //.
have c2c : F64.mul (Fin (IZR (dof a)))
       (F64.pow (F64.sub (F64.add (F64.mul
         (F64.sub t (F64.div
            (F64.add (F64.add (Fin c0) (F64.mul (Fin c1) t))
                     (F64.mul (Fin c2) (F64.pow t 2)))
            (F64.add (F64.add (F64.add (Fin 1) (F64.mul (Fin d1) t))
                              (F64.mul (Fin d2) (F64.pow t 2)))
                     (F64.mul (Fin d3) (F64.pow t 3))))) s) (Fin 1))
         (Fin (2 / (9 * IZR (dof a))))) 3) = NaN.
  case: nan => ->.
  - by rewrite F64_sub_NaN (proj2 (F64_mul_NaN _)).
  - by rewrite (proj1 (F64_mul_NaN _)).
rewrite c2c; split=> //.
rewrite /AdjustmentResults.get_report /=; eexists; first by [].
by rewrite /= /AdjustmentResults.chi_result /=.
Qed.

Lemma two_neq0 : 2 <> 0.
Proof. lra. Qed.

Lemma two_neq0Z : 2%Z <> 0%Z.
Proof. by []. Qed.

Lemma one_lt_two : 2 < 0 \/ 1 < 2 \/ (2 < 0)%Z.
Proof. by right; left; lra. Qed.

(** X11 on an adjustment with [alpha = 2]. *)
Lemma lsq_statistics_nan_witness :
  let res := adjustmentresults (lsq_statistics (solved 3 2 2)).1 in
  [/\ (lsq_statistics (solved 3 2 2)).2 = Ok tt,
      AdjustmentResults.chi2c res = NaN
    & exists2 report, AdjustmentResults.get_report res = Ok report
                    & nth [::] report 7 = chi_line "rejected"].
Proof.
exact: (@lsq_statistics_nan (solved 3 2 2) isT two_neq0Z two_neq0 one_lt_two).
Defined.

End StatisticsProperties.

Section PipelineProperties.

Import Adjustment.

(** X12.  Inversion followed by statistics, on an observation vector with
    an invertible normal matrix, [dof > 0] and [0 < alpha < 1]:
    [lsq_statistics] returns, [chi2] is [r^T P r] of the residual, and
    the report line "SD a posteriori" shows the variance factor
    [chi2 / dof], whose square root is what the attribute [SDaposteriori]
    of the adjustment holds. *)
Theorem inversion_then_statistics (gesv : lapack)
    n k (MA : 'M[R]_(n, k)) (MP : 'M[R]_n) (MObs : 'cV[R]_n)
    (a : Adjustment.t) :
  A a = NdArray MA -> P a = NdArray MP -> Obs a = NdArray MObs ->
  normal_matrix MA MP \in unitmx -> (0 < dof a)%Z ->
  (0 < AdjustmentOptions.alpha (adjustmentoptions a) < 1)%Re ->
  let a1 := (python_lsq_inversion gesv a).1 in
  let a2 := (lsq_statistics a1).1 in
  let rm := lsq_residual MA MP MObs in
  let s02 := ((rm^T *m MP *m rm) ord0 ord0 / IZR (dof a))%Re in
  [/\ (lsq_statistics a1).2 = Ok tt,
      AdjustmentResults.chi2 (adjustmentresults a2)
      = Fin ((rm^T *m MP *m rm) ord0 ord0),
      SDaposteriori a2 = NdArray (\matrix_(i < 1, j < 1) F64.sqrt (Fin s02))
    & exists2 report,
        AdjustmentResults.get_report (adjustmentresults a2) = Ok report
        & nth [::] report 4 = [:: Lit sd_label; FmtF "4f" (Fin s02)]].
Proof.
move=> HA HP HO HN Hd Ha a1 a2 rm s02.
have d0 : IZR (dof a) <> 0%Re.
  by apply: not_0_IZR => e; rewrite e in Hd.
have a1E : exists v sd,
    a1 = set_var v (set_SDaposteriori sd
           (set_VtPV (NdArray (rm^T *m MP *m rm))
              (set_r (NdArray rm)
                 (set_X (NdArray (lsq_solution MA MP MObs)) a))))
    /\ sd = NdArray (\matrix_(i < 1, j < 1) F64.sqrt (Fin s02)).
  rewrite /a1 (python_lsq_inversion_unit gesv HA HP HO HN) /=.
  rewrite /np_divide_int /np_sqrt /amap /= np_multiply_scalar /=.
  eexists; eexists; split; first by [].
  congr NdArray; apply/matrixP => i j.
  by rewrite /s02 !mxE !ord1 F64_div_Fin.
case: a1E => v [sd [a1E sdE]].
have HV : VtPV a1 = NdArray (rm^T *m MP *m rm) by rewrite a1E.
have Hd1 : (0 < dof a1)%Z by rewrite a1E.
have Ha1 : (0 < AdjustmentOptions.alpha (adjustmentoptions a1) < 1)%Re.
  by rewrite a1E.
rewrite /a2 (@lsq_statistics_run 0 0 _ a1 HV Hd1 Ha1) /=.
split=> //; first by rewrite a1E /= sdE.
rewrite /AdjustmentResults.get_report /=.
have -> : dof a1 = dof a by rewrite a1E.
by eexists; first by []; rewrite /= F64_div_Fin.
Qed.

Lemma alpha_init :
  (0 < AdjustmentOptions.alpha (adjustmentoptions one_station) < 1)%Re.
Proof. by rewrite /=; lra. Qed.

(** X12 on [one_station]. *)
Lemma inversion_then_statistics_witness :
  let a1 := (python_lsq_inversion exact_pivot one_station).1 in
  let a2 := (lsq_statistics a1).1 in
  let rm := lsq_residual station_A station_P station_Obs in
  let s02 := ((rm^T *m station_P *m rm) ord0 ord0
              / IZR (dof one_station))%Re in
  [/\ (lsq_statistics a1).2 = Ok tt,
      AdjustmentResults.chi2 (adjustmentresults a2)
      = Fin ((rm^T *m station_P *m rm) ord0 ord0),
      SDaposteriori a2 = NdArray (\matrix_(i < 1, j < 1) F64.sqrt (Fin s02))
    & exists2 report,
        AdjustmentResults.get_report (adjustmentresults a2) = Ok report
        & nth [::] report 4 = [:: Lit sd_label; FmtF "4f" (Fin s02)]].
Proof.
exact: (@inversion_then_statistics exact_pivot 2 1 station_A station_P
          station_Obs one_station erefl erefl erefl station_unit erefl
          alpha_init).
Defined.

(** X13.  Once [lsq_statistics] has run on an adjustment whose [VtPV]
    has an entry [[0][0]], [get_report] returns its twelve lines, with
    the [dof] of the adjustment and [VtPV[0][0]] as the chi-square value:
    also when [lsq_statistics] itself ended in [ZeroDivisionError]. *)
Theorem lsq_statistics_then_report
    m p (V : 'M[R]_(m.+1, p.+1)) (a : Adjustment.t) :
  VtPV a = NdArray V ->
  let res := adjustmentresults (lsq_statistics a).1 in
  exists report,
    [/\ AdjustmentResults.get_report res = Ok report,
        size report = 12%N,
        nth [::] report 3
        = [:: Lit "Degrees of freedom (nobs-nunknowns): "%string;
              FmtZ "d" (dof a)]
      & nth [::] report 5
        = [:: Lit "chi square value:                  "%string;
              FmtF "6.2f" (Fin (V ord0 ord0))]].
Proof.
move=> HV.
rewrite /lsq_statistics /bind /get /lift /assign /= HV getitem2_00 /=.
by split_results; rewrite /AdjustmentResults.get_report /=; eexists; split.
Qed.

(** X13 on an adjustment with [VtPV = [[3]]], [dof = 2], [alpha = 0]. *)
Lemma lsq_statistics_then_report_witness :
  let res := adjustmentresults (lsq_statistics (solved 3 2 0)).1 in
  exists report,
    [/\ AdjustmentResults.get_report res = Ok report,
        size report = 12%N,
        nth [::] report 3
        = [:: Lit "Degrees of freedom (nobs-nunknowns): "%string;
              FmtZ "d" 2%Z]
      & nth [::] report 5
        = [:: Lit "chi square value:                  "%string;
              FmtF "6.2f"
                (Fin ((\matrix_(i, j) nth 0%Re (nth [::] [:: [:: 3%Re]] i) j
                       : 'M[R]_1) ord0 ord0))]].
Proof.
exact: (@lsq_statistics_then_report 0 0 _ (solved 3 2 0) erefl).
Defined.

(** X14.  After [lsq_statistics] has run on an adjustment with
    [dof = 0] whose [VtPV] has an entry [[0][0]], [get_report] does not
    raise: [chi2] is the numpy float that line 238 stored, so
    [chi2 / dof] is numpy's division, and the line "SD a posteriori"
    shows [inf], [-inf] or [nan]. *)
Theorem get_report_zero_dof
    m p (V : 'M[R]_(m.+1, p.+1)) (a : Adjustment.t) :
  VtPV a = NdArray V -> dof a = 0%Z ->
  let res := adjustmentresults (lsq_statistics a).1 in
  exists report s,
    [/\ AdjustmentResults.get_report res = Ok report,
        nth [::] report 4 = [:: Lit sd_label; FmtF "4f" s]
      & ~~ is_finite s].
Proof.
move=> HV Hd.
have nf x : ~~ is_finite (F64.div (Fin x) (Fin (IZR 0))).
  by rewrite /F64.div eqxx signed_inf_finite.
rewrite /lsq_statistics /bind /get /lift /assign /= HV getitem2_00 /= Hd.
by split_results; rewrite /AdjustmentResults.get_report /=;
   (eexists; eexists; split; [by [] | by [] | exact: nf]).
Qed.

(** X14 on [two_stations] after the inversion. *)
Lemma get_report_zero_dof_witness :
  let res := adjustmentresults (lsq_statistics two_stations).1 in
  exists report s,
    [/\ AdjustmentResults.get_report res = Ok report,
        nth [::] report 4 = [:: Lit sd_label; FmtF "4f" s]
      & ~~ is_finite s].
Proof.
exact: (@get_report_zero_dof 0 0 _ two_stations erefl erefl).
Defined.

End PipelineProperties.

(* ===================================================================== *)
(** * Further properties of [results_string]                               *)
(* ===================================================================== *)

Section ResultsStringProperties.

Import Adjustment.

Local Open Scope string_scope.

Lemma rbind_Raise T U (x : result T) (k : T -> result U) e :
  rbind x k = Raise e ->
  x = Raise e \/ exists2 v, x = Ok v & k v = Raise e.
Proof. by case: x => [v|e'] /=; [right; exists v | case=> ->; left]. Qed.

Lemma rbind_Ok T U (x : result T) (k : T -> result U) u :
  rbind x k = Ok u -> exists2 v, x = Ok v & k v = Ok u.
Proof. by case: x => [v|e'] //= kv; exists v. Qed.

Lemma mapM_Raise T U (f : T -> result U) (l : seq T) e (Q : exn -> Prop) :
  (forall x e', f x = Raise e' -> Q e') -> mapM f l = Raise e -> Q e.
Proof.
move=> fQ; elim: l => [|x l IH] //=.
case fx: (f x) => [y|e'] /=; last by case=> <-; exact: (fQ _ _ fx).
by case: (mapM f l) IH => [ys|e''] //= IH [<-]; exact: IH.
Qed.

Lemma mapM_size T U (f : T -> result U) (l : seq T) ys :
  mapM f l = Ok ys -> size ys = size l.
Proof.
elim: l ys => [|x l IH] ys /=; first by case=> <-.
case: (f x) => [y|e] //=; case ml: (mapM f l) => [ys'|e] //= [<-] /=.
by rewrite (IH _ ml).
Qed.


Lemma py_index_Raise len i e : py_index len i = Raise e -> e = IndexError.
Proof.
by rewrite /py_index; case: (_ && _) => //; case: (_ && _) => //; case.
Qed.

Lemma getitem2_Raise T (d : T) (v : ndarray T) i j e :
  getitem2 d v i j = Raise e -> e = IndexError.
Proof.
rewrite /getitem2.
case ei: (py_index _ i) => [i'|e'] /=;
  last by case=> <-; exact: py_index_Raise ei.
by case ej: (py_index _ j) => [j'|e'] //= [<-]; exact: py_index_Raise ej.
Qed.

Lemma drift_line_Raise self start i e :
  drift_line self start i = Raise e -> e = IndexError.
Proof.
rewrite /drift_line.
by case eg: getitem2 => [x|e'] //= [<-]; exact: getitem2_Raise eg.
Qed.

Lemma loop_lines_Raise self loop e :
  loop_lines self loop = Raise e -> e = IndexError.
Proof.
rewrite /loop_lines.
case em: mapM => [ls|e'] //= [<-].
exact: (mapM_Raise (@drift_line_Raise self loop.2.1) em).
Qed.

Lemma get_report_Raise res e :
  AdjustmentResults.get_report res = Raise e ->
  e = AttributeError /\ AdjustmentResults.dof res = None.
Proof.
rewrite /AdjustmentResults.get_report.
by case: (AdjustmentResults.dof res) => //= [[<-]].
Qed.

(** Why the body of [results_string] raises: a missing attribute of the
    results, or an index out of the bounds of [X] in the drift lines. *)
Lemma results_string_body_Raise (a : Adjustment.t) (e : exn) :
  let res := adjustmentresults a in
  let opts := adjustmentoptions a in
  results_string_body a = Raise e ->
  [/\ AdjustmentResults.text res = [::]
    & (0 < AdjustmentResults.n_unknowns res)%Z]
  /\ (e = AttributeError
      /\ (AdjustmentResults.dof res = None
          \/ [/\ AdjustmentOptions.cal_coeff opts = false,
                 AdjustmentOptions.specify_cal_coeff opts = true
               & AdjustmentResults.meter_cal_dict res = None])
      \/ e = IndexError /\ netadj_loop_keys a <> [::]).
Proof.
move=> res opts; rewrite /results_string_body -/res -/opts.
case: (AdjustmentResults.text _) => [|//].
case: Z.ltb_spec => // Hn.
case/rbind_Raise => [/get_report_Raise [-> dN]|[report _]].
  by split=> //; left; split=> //; left.
case/rbind_Raise => [|[text1 _]].
  case: (AdjustmentOptions.cal_coeff _) => //.
  case: (AdjustmentOptions.specify_cal_coeff _) => //.
  case/rbind_Raise => [|[? _] //].
  case: (AdjustmentResults.meter_cal_dict _) => //= [[<-]].
  by split=> //; left; split=> //; right.
case/rbind_Raise => [|[? _] //].
case: (netadj_loop_keys a) => [|k ks] //.
case/rbind_Raise => [|[? _] //].
by move/(mapM_Raise (@loop_lines_Raise a)) => ->; split; [|right].
Qed.

(** What the body of [results_string] returns is a list of lines, or
    [None] when there is no text and no unknown. *)
Lemma results_string_body_Ok (a : Adjustment.t) (v : retval) :
  let res := adjustmentresults a in
  results_string_body a = Ok v ->
  (exists ls, v = Lines ls)
  \/ [/\ v = PyNone, AdjustmentResults.text res = [::]
       & (AdjustmentResults.n_unknowns res <= 0)%Z].
Proof.
move=> res; rewrite /results_string_body -/res.
case: (AdjustmentResults.text _) => [|x s]; last first.
  by case=> <-; left; eexists.
case: Z.ltb_spec => Hn; last by case=> <-; right.
move=> h1; have [report _ h2] := rbind_Ok h1.
have [text1 _ h3] := rbind_Ok h2.
have [text2 _ [<-]] := rbind_Ok h3.
by left; eexists.
Qed.

(** X15.  [results_string] returns the empty string exactly when there
    is no free-form text, [n_unknowns > 0], and an attribute it reads is
    missing: [dof] of the results (no statistics were computed), or
    [meter_cal_dict] of the results when the specified coefficients are
    to be listed. *)
Theorem results_string_empty_iff (a : Adjustment.t) :
  let res := adjustmentresults a in
  let opts := adjustmentoptions a in
  results_string a = Ok EmptyStr
  <-> [/\ AdjustmentResults.text res = [::],
          (0 < AdjustmentResults.n_unknowns res)%Z
        & AdjustmentResults.dof res = None
          \/ [/\ AdjustmentOptions.cal_coeff opts = false,
                 AdjustmentOptions.specify_cal_coeff opts = true
               & AdjustmentResults.meter_cal_dict res = None]].
Proof.
move=> res opts; split.
- rewrite /results_string.
  case eb: (results_string_body a) => [v|e].
    by case: (results_string_body_Ok eb) => [[ls ->]|[-> _ _]].
  have [[tx nu] why] := results_string_body_Raise eb.
  case: why => [[_ why]|[eI _]]; first by [].
  by rewrite eI.
- case=> Ht /Z.ltb_lt Hn.
  rewrite /results_string /results_string_body -/res -/opts Ht Hn.
  rewrite /AdjustmentResults.get_report.
  case: (AdjustmentResults.dof res) => [d|]; last by [].
  case=> // - [-> -> ->].
  by [].
Qed.

(** X16.  The only exception that [results_string] lets through is
    [IndexError], and only from the drift coefficients: there is then no
    free-form text, [n_unknowns > 0] and [netadj_loop_keys] is not
    empty. *)
Theorem results_string_raises (a : Adjustment.t) (e : exn) :
  results_string a = Raise e ->
  [/\ e = IndexError,
      netadj_loop_keys a <> [::],
      AdjustmentResults.text (adjustmentresults a) = [::]
    & (0 < AdjustmentResults.n_unknowns (adjustmentresults a))%Z].
Proof.
rewrite /results_string.
case eb: (results_string_body a) => [//|e0].
have [[tx nu] [[e0E _]|[e0E nl]]] := results_string_body_Raise eb.
  by rewrite e0E.
by rewrite e0E => -[<-].
Qed.

Lemma drifting_IndexError :
  results_string (drifting unset 1 (Some 1%Z)) = Raise IndexError.
Proof. by []. Qed.

(** X16 on a solved adjustment with a drift loop and no [X]. *)
Lemma results_string_raises_witness :
  let a := drifting unset 1 (Some 1%Z) in
  [/\ IndexError = IndexError,
      netadj_loop_keys a <> [::],
      AdjustmentResults.text (adjustmentresults a) = [::]
    & (0 < AdjustmentResults.n_unknowns (adjustmentresults a))%Z].
Proof.
exact: (@results_string_raises (drifting unset 1 (Some 1%Z)) IndexError
          drifting_IndexError).
Defined.

End ResultsStringProperties.

Section ReportLayout.

Import Adjustment.

Local Open Scope string_scope.


Lemma mapM_map (T : eqType) U (f : T -> result U) (g : T -> U) (l : seq T) :
  (forall x, x \in l -> f x = Ok (g x)) -> mapM f l = Ok (map g l).
Proof.
elim: l => [|x l IH] //= fg.
rewrite fg ?mem_head //= IH // => y yl.
by apply: fg; rewrite inE yl orbT.
Qed.

Lemma mapM_has_Raise T U (f : T -> result U) (p : pred T) (l : seq T) e :
  (forall x, p x -> f x = Raise e) ->
  (forall x e', f x = Raise e' -> e' = e) ->
  has p l -> mapM f l = Raise e.
Proof.
move=> fp fe; elim: l => [|x l IH] //=.
case fx: (f x) => [y|e'] /=; last by rewrite (fe _ _ fx).
case px: (p x); first by rewrite (fp _ px) in fx.
by move=> /IH ->.
Qed.

Lemma get_report_size res report :
  AdjustmentResults.get_report res = Ok report -> size report = 12%N.
Proof.
rewrite /AdjustmentResults.get_report.
by case: (AdjustmentResults.dof res) => [d|] //= [<-].
Qed.

Lemma loop_lines_size self loop ls :
  loop_lines self loop = Ok ls -> size ls = (Z.to_nat loop.2.2).+1.
Proof.
rewrite /loop_lines; case ml: mapM => [ds|e] //= [<-] /=.
by rewrite (mapM_size ml) size_iota.
Qed.

Lemma loops_size self loops lss :
  mapM (loop_lines self) loops = Ok lss ->
  size (flatten lss) = sumn [seq (Z.to_nat l.2.2).+1 | l <- loops].
Proof.
elim: loops lss => [|x l IH] lss /=; first by case=> <-.
case fx: loop_lines => [y|e]; last by [].
rewrite /=; case ml: mapM => [ys|e]; last by [].
by case=> <- /=; rewrite size_cat (loop_lines_size fx) (IH _ ml).
Qed.

(** X17.  The number of lines that [results_string] returns: the lines
    of the free-form text when there is one; otherwise the twelve lines
    of [get_report], one line per calibration coefficient shown and, when
    loops have their drift in the network adjustment, one heading, and
    per loop one line with its name and one per degree of its
    polynomial. *)
Theorem results_string_size (a : Adjustment.t) (ls : seq line) :
  let res := adjustmentresults a in
  results_string a = Ok (Lines ls) ->
  size ls
  = if AdjustmentResults.text res is _ :: _
    then size (AdjustmentResults.text res)
    else (12 + cal_count a
          + if netadj_loop_keys a is _ :: _
            then (sumn [seq (Z.to_nat l.2.2).+1 | l <- netadj_loop_keys a]).+1
            else 0)%N.
Proof.
move=> res; rewrite /results_string.
case eb: (results_string_body a) => [v|e]; last by case: e {eb}.
move=> ev; move: eb; rewrite {v}ev.
rewrite /results_string_body /cal_count -/res.
case: (AdjustmentResults.text res) => [|x s]; last first.
  by rewrite /= => -[<-] /=; rewrite size_map.
case: Z.ltb_spec => // Hn h1.
have [report /get_report_size sr h2] := rbind_Ok h1.
have [text1 ht1 h3] := rbind_Ok h2.
have [text2 ht2 [<-]] := rbind_Ok h3.
have -> : size text2
          = (size text1
             + if netadj_loop_keys a is _ :: _
               then (sumn [seq (Z.to_nat l.2.2).+1
                          | l <- netadj_loop_keys a]).+1
               else 0)%N.
  move: ht2; case: (netadj_loop_keys a) => [|k ks].
    by case=> <-; rewrite addn0.
  move=> h; have [lss hl [<-]] := rbind_Ok h.
  by rewrite size_cat /= (loops_size hl).
congr addn.
move: ht1; case: (AdjustmentOptions.cal_coeff _).
  by case=> <-; rewrite size_cat size_map sr.
case: (AdjustmentOptions.specify_cal_coeff _); last first.
  by case=> <-; rewrite sr addn0.
case: (AdjustmentResults.meter_cal_dict res) => [d|] //=.
by case=> <-; rewrite size_cat size_map sr.
Qed.

(** X17 on [calibrated true false]: thirteen lines. *)
Lemma results_string_size_witness :
  size (lines_of (results_string (calibrated true false))) = 13%N.
Proof.
exact: (@results_string_size (calibrated true false) _
          (calibrated_lines true false)).
Defined.

(** X18.  The lines of a loop whose coefficients lie within [X]: the
    name of the loop, then one line per coefficient, numbered from 1.
    The unit "(µGal/day)" is appended unless the value of the
    coefficient equals 1: the test of line 191 compares the coefficient,
    not its degree. *)
Theorem loop_lines_in_range
    m c (MX : 'M[R]_(m, c.+1)) (a : Adjustment.t) (name : string)
    (start degree : Z) :
  X a = NdArray MX ->
  let base := (Z.of_nat (size (sta_dic_ls a)) + n_meters a + start)%Z in
  (0 <= base)%Z -> (base + degree <= Z.of_nat m)%Z ->
  loop_lines a (name, (start, degree))
  = Ok ([:: Lit ("Loop " ++ name ++ ": ")]
          :: [seq drift_entry i (mx_get 0%Re MX (Z.to_nat base + i) 0)
             | i <- iota 0 (Z.to_nat degree)]).
Proof.
move=> HX base b0 bd.
rewrite /loop_lines /=.
rewrite (@mapM_map _ _ _
          (fun i => drift_entry i (mx_get 0%Re MX (Z.to_nat base + i) 0))) //.
move=> i; rewrite mem_iota add0n => /andP [_ /ltP id].
have iz : (Z.of_nat i < degree)%Z by lia.
rewrite /drift_line /= -/base HX /getitem2 /= /py_index.
have -> : (0 <=? base + Z.of_nat i)%Z by apply/Z.leb_le; lia.
have -> : (base + Z.of_nat i <? Z.of_nat m)%Z by apply/Z.ltb_lt; lia.
rewrite /= Z2Nat.inj_add ?Nat2Z.id; try lia.
rewrite /drift_entry -/(addn _ _).
by case: (_ == _).
Qed.

(** X18 on a loop of degree 2 with the coefficients 1 and 3. *)
Lemma loop_lines_in_range_witness :
  let MX : 'M[R]_(2, 1) :=
    \matrix_(i, j) nth 0%Re (nth [::] [:: [:: 1%Re]; [:: 3%Re]] i) j in
  loop_lines (drifting (np_array 2 1 [:: [:: 1%Re]; [:: 3%Re]]) 2 (Some 1%Z))
    ("loop1", (0%Z, 2%Z))
  = Ok ([:: Lit ("Loop " ++ "loop1" ++ ": ")]
          :: [seq drift_entry i (mx_get 0%Re MX (Z.to_nat 0 + i) 0)
             | i <- iota 0 (Z.to_nat 2)]).
Proof.
exact: (@loop_lines_in_range 2 0 _
          (drifting (np_array 2 1 [:: [:: 1%Re]; [:: 3%Re]]) 2 (Some 1%Z))
          "loop1" 0%Z 2%Z erefl (Z.le_refl 0) (Z.le_refl 2)).
Defined.

Lemma py_index_empty i : py_index 0 i = Raise IndexError.
Proof.
rewrite /py_index /=.
have -> : ((0 <=? i)%Z && (i <? 0)%Z) = false.
  by apply/negP => /andP [/Z.leb_le ? /Z.ltb_lt ?]; lia.
by [].
Qed.

Lemma getitem2_no_row T (d : T) (v : ndarray T) i j :
  nrows v = 0%N -> getitem2 d v i j = Raise IndexError.
Proof.
case: v => m c V /= m0; move: V; rewrite m0 => V.
by rewrite /getitem2 /= py_index_empty.
Qed.

(** X19.  Before any inversion ([X] has no row), with statistics on
    record and a loop of positive degree in [netadj_loop_keys],
    [results_string] raises [IndexError]: the [except] clause does not
    catch it. *)
Theorem results_string_no_solution (a : Adjustment.t) (d : Z) :
  let res := adjustmentresults a in
  let opts := adjustmentoptions a in
  AdjustmentResults.text res = [::] ->
  (0 < AdjustmentResults.n_unknowns res)%Z ->
  AdjustmentResults.dof res = Some d ->
  [|| AdjustmentOptions.cal_coeff opts,
      ~~ AdjustmentOptions.specify_cal_coeff opts
    | isSome (AdjustmentResults.meter_cal_dict res)] ->
  nrows (X a) = 0%N ->
  has (fun l => (0 <? l.2.2)%Z) (netadj_loop_keys a) ->
  results_string a = Raise IndexError.
Proof.
move=> res opts Ht /Z.ltb_lt Hn Hd Hc HX Hl.
have raises : mapM (loop_lines a) (netadj_loop_keys a) = Raise IndexError.
  apply: (@mapM_has_Raise _ _ _ (fun l => (0 <? l.2.2)%Z)) (Hl)
    => [l /Z.ltb_lt l0|l e]; last first.
    exact: loop_lines_Raise.
  rewrite /loop_lines.
  have [n ->] : exists n, Z.to_nat l.2.2 = n.+1.
    by exists (Z.to_nat l.2.2).-1; lia.
  by rewrite /= /drift_line getitem2_no_row.
rewrite /results_string /results_string_body -/res -/opts Ht Hn.
rewrite /AdjustmentResults.get_report Hd [rbind (Ok _) _]/=.
set cal := (X in rbind X _).
have [t1 ->] : exists t1, cal = Ok t1.
  rewrite /cal; move: Hc.
  case: (AdjustmentOptions.cal_coeff opts) => /=; first by eexists.
  case: (AdjustmentOptions.specify_cal_coeff opts) => /=; last by eexists.
  by case: (AdjustmentResults.meter_cal_dict res) => //= mcd _; eexists.
rewrite [rbind (Ok _) _]/=.
by move: raises; case: (netadj_loop_keys a) Hl => // k ks _ ->.
Qed.

(** X19 on a solved adjustment with a drift loop and no [X]. *)
Lemma results_string_no_solution_witness :
  results_string (drifting unset 1 (Some 1%Z)) = Raise IndexError.
Proof.
exact: (@results_string_no_solution (drifting unset 1 (Some 1%Z)) 1
          erefl erefl erefl isT erefl isT).
Defined.

End ReportLayout.

(* ===================================================================== *)
(** * The table of adjusted stations                                       *)
(* ===================================================================== *)

Section StationTable.

Import Adjustment.

Lemma dict_getitem_contains T (d : seq (string * T)) k :
  dict_contains d k -> exists v, dict_getitem d k = Value v.
Proof.
elim: d => [|kv d IH] //=.
by case: String.eqb => //= _; exists kv.2.
Qed.

Lemma dict_getitem_missing T (d : seq (string * T)) k :
  ~~ dict_contains d k -> dict_getitem d k = KeyError k.
Proof. by elim: d => [|kv d IH] //=; case: String.eqb. Qed.

Lemma dict_getitem_KeyError T (d : seq (string * T)) k k' :
  dict_getitem d k = KeyError k' -> k' = k /\ ~~ dict_contains d k.
Proof.
elim: d => [|kv d IH] /=; first by case=> <-.
by case: String.eqb.
Qed.

Lemma dict_get_getitem T (d : seq (string * T)) k v dflt :
  dict_getitem d k = Value v -> dict_get d k dflt = v.
Proof. by rewrite /dict_get => ->. Qed.

(** The text of one station, as [AdjustedStation] prints it, and the end
    of the line. *)
Lemma gdic_loop_Value sd_dic return_str items :
  all (fun kv => dict_contains sd_dic kv.1) items ->
  gdic_loop sd_dic return_str items
  = Value (return_str
           ++ flatten [seq station_row sd_dic kv | kv <- items]).
Proof.
elim: items return_str => [|kv items IH] return_str /=.
  by rewrite cats0.
case/andP => /dict_getitem_contains [sd e] /IH {}IH.
by rewrite e IH /station_row (dict_get_getitem _ e) -catA.
Qed.

Lemma gdic_loop_KeyError sd_dic return_str items k :
  gdic_loop sd_dic return_str items = KeyError k
  <-> exists s1 v s2,
        [/\ items = s1 ++ (k, v) :: s2,
            ~~ dict_contains sd_dic k
          & all (fun kv => dict_contains sd_dic kv.1) s1].
Proof.
elim: items return_str => [|kv items IH] return_str /=.
  by split=> // -[[|? ?] [v [s2 []]]].
case e: (dict_getitem sd_dic kv.1) => [sd|k'].
  have ckv : dict_contains sd_dic kv.1.
    by apply/negPn/negP => /dict_getitem_missing; rewrite e.
  rewrite IH; split=> -[s1 [v [s2 [es nk all1]]]].
    by exists (kv :: s1), v, s2; split=> //=; [rewrite es | rewrite ckv].
  case: s1 es all1 => [|kv' s1] /=.
    by case=> ekv _; move: nk; rewrite -[k]/((k, v).1) -ekv ckv.
  by case=> _ -> /andP [_ all1]; exists s1, v, s2.
have [-> nk] := dict_getitem_KeyError e.
split=> [[<-]|[s1 [v [s2 [es nk' all1]]]]].
  by exists [::], kv.2, items; split=> //; case: (kv).
case: s1 es all1 => [|kv' s1] /=; first by case=> ->.
by case=> <- _ /andP []; rewrite (negbTE nk).
Qed.

(** X20.  When every station of [g_dic] has a standard deviation in
    [sd_dic], [adjustment_gdic_str] is, station by station in the order
    of [g_dic], the text that [AdjustedStation.__str__] gives for the
    station, its value and its standard deviation, followed by a line
    break. *)
Theorem adjustment_gdic_str_stations (a : Adjustment.t) :
  all (fun kv => dict_contains (sd_dic a) kv.1) (g_dic a) ->
  adjustment_gdic_str a
  = Value (flatten
             [seq rcons (AdjustedStation.str
                           (AdjustedStation.mk kv.1 (Fin kv.2)
                              (Fin (dict_get (sd_dic a) kv.1 0%Re))))
                        (Lit newline)
             | kv <- g_dic a]).
Proof.
by move=> h; rewrite /adjustment_gdic_str (gdic_loop_Value _ h).
Qed.

(** X20 on two stations. *)
Lemma adjustment_gdic_str_stations_witness :
  let g := [:: ("A"%string, 10%Re); ("B"%string, 12%Re)] in
  let sd := [:: ("B"%string, 2%Re); ("A"%string, 1%Re)] in
  adjustment_gdic_str (tabulated g sd)
  = Value (flatten
             [seq rcons (AdjustedStation.str
                           (AdjustedStation.mk kv.1 (Fin kv.2)
                              (Fin (dict_get sd kv.1 0%Re))))
                        (Lit newline)
             | kv <- g]).
Proof.
exact: (@adjustment_gdic_str_stations
          (tabulated [:: ("A"%string, 10%Re); ("B"%string, 12%Re)]
             [:: ("B"%string, 2%Re); ("A"%string, 1%Re)]) isT).
Defined.

(** X21.  [adjustment_gdic_str] raises [KeyError] for the station [k]
    exactly when [k] is the first station of [g_dic] that has no entry
    in [sd_dic]; no text is returned then, whatever the stations before
    it. *)
Theorem adjustment_gdic_str_KeyError (a : Adjustment.t) (k : string) :
  adjustment_gdic_str a = KeyError k
  <-> exists s1 v s2,
        [/\ g_dic a = s1 ++ (k, v) :: s2,
            ~~ dict_contains (sd_dic a) k
          & all (fun kv => dict_contains (sd_dic a) kv.1) s1].
Proof. by rewrite /adjustment_gdic_str; exact: gdic_loop_KeyError. Qed.

End StationTable.

(* ===================================================================== *)
(** * The static methods of the drift tab                                  *)
(* ===================================================================== *)

Section CalcNoneDgProperties.

Variables (station loop_name delta : Type).
Variable DeltaNormal : option station -> station -> R -> loop_name -> delta.

Lemma none_dg_loopE (name : loop_name) deltas (s : station) data :
  none_dg_loop DeltaNormal name deltas (Some s) data
  = rev [seq DeltaNormal (Some p.1) p.2 0%Re name | p <- zip (s :: data) data]
    ++ deltas.
Proof.
elim: data s deltas => [|s' data IH] s deltas //=.
by rewrite IH rev_cons cat_rcons.
Qed.

Lemma calc_none_dgE (data : seq station) (name : loop_name) :
  calc_none_dg DeltaNormal data name
  = (behead data,
     rev [seq DeltaNormal (Some p.1) p.2 0%Re name
         | p <- zip data (behead data)]).
Proof.
case: data => [|s data] //.
by rewrite /calc_none_dg none_dg_loopE cats0.
Qed.

(** X22.  [calc_none_dg] pairs each station of [data] with the next one:
    the deltas returned are those of the successive pairs, the last pair
    first, each with a drift correction of 0 and the name of the loop;
    there is one delta less than there are stations, and none for fewer
    than two stations.  The call removes the first station from the list
    it is given. *)
Theorem calc_none_dg_pairs (data : seq station) (name : loop_name) :
  let out := calc_none_dg DeltaNormal data name in
  [/\ out.1 = behead data,
      out.2 = rev [seq DeltaNormal (Some p.1) p.2 0%Re name
                  | p <- zip data (behead data)]
    & size out.2 = (size data).-1].
Proof.
rewrite calc_none_dgE /=; split=> //.
rewrite size_rev size_map size_zip size_behead.
by apply/minn_idPr; exact: leq_pred.
Qed.

End CalcNoneDgProperties.

Section ScreenForElapsedTimeProperties.

Variable label : Type.
Variable elapsed_time : R.

Notation state := (screen_state label).
Notation pline := (plot_line label).

Lemma foldM_inv S T (f : S -> T -> result S) (Inv : S -> Prop) l s s' :
  (forall s x s', Inv s -> f s x = Ok s' -> Inv s') ->
  Inv s -> foldM f s l = Ok s' -> Inv s'.
Proof.
move=> fI; elim: l s => [|x l IH] s /= Is; first by case=> <-.
case fx: (f s x) => [s1|e] //=.
by apply: IH; apply: fI fx.
Qed.

Lemma foldM_Raise S T (f : S -> T -> result S) (Q : exn -> Prop)
    (p : pred T) l s e :
  (forall s x e, f s x = Raise e -> Q e /\ p x) ->
  foldM f s l = Raise e -> Q e /\ has p l.
Proof.
move=> fQ; elim: l s => [|x l IH] s //=.
case fx: (f s x) => [s1|e'] /=.
  by move=> /IH [qe ->]; rewrite orbT.
by case=> <-; have [qe ->] := fQ _ _ _ fx.
Qed.

Lemma foldM_cons S T (f : S -> T -> result S) x l s :
  foldM f s (x :: l) = (s' <~ f s x ;; foldM f s' l).
Proof. by []. Qed.

Lemma foldM_cat S T (f : S -> T -> result S) l1 l2 s :
  foldM f s (l1 ++ l2) = (s' <~ foldM f s l1 ;; foldM f s' l2).
Proof.
elim: l1 s => [|x l1 IH] s //=.
by case: (f s x) => [s1|e] //=.
Qed.

Lemma list_getitem_Ok T (d : T) (l : seq T) i v :
  list_getitem d l i = Ok v -> (i < size l)%N /\ v = nth d l i.
Proof. by rewrite /list_getitem; case: ltnP => // il [<-]. Qed.

Lemma list_getitem_Raise T (d : T) (l : seq T) i e :
  list_getitem d l i = Raise e -> e = IndexError /\ (size l <= i)%N.
Proof. by rewrite /list_getitem; case: ltnP => // il [<-]. Qed.

Lemma list_getitem_nth T (d : T) (l : seq T) i :
  (i < size l)%N -> list_getitem d l i = Ok (nth d l i).
Proof. by rewrite /list_getitem => ->. Qed.

Lemma screen_point_inv x y name (st st' : state) i :
  screen_inv st -> screen_point elapsed_time x y name st i = Ok st' ->
  screen_inv st'.
Proof.
case: st => [[nd nx] ny] [/= ok_nd sz n1]; rewrite /screen_point.
case: Rltb; last by case=> <-.
case e0: (size nx == 0)%N.
  move/eqP: e0 sz => e0; rewrite e0 (size0nil e0) => sz.
  case: list_getitem => [y0|e] //=; case: list_getitem => [y1|e] //= [<-].
  by split=> //=; rewrite size_cat -sz.
have n2 : (1 < size nx)%N.
  by case: (size nx) n1 e0 => [|[|n]].
case: Rltb.
  case: list_getitem => [y1|e] //= [<-]; split=> //=.
    by rewrite !size_rcons sz.
  by rewrite size_rcons; case: (size nx) n2.
case: list_getitem => [y0|e] //=; case: list_getitem => [y1|e] //= [<-].
split=> //=.
by rewrite all_rcons ok_nd /segment_ok /= sz eqxx -sz n2.
Qed.

Lemma screen_line_ok (nd nd' : seq pline) (l : pline) :
  all (@segment_ok label) nd -> screen_line elapsed_time nd l = Ok nd' ->
  all (@segment_ok label) nd'.
Proof.
case: l => [[x y] name] ok_nd; rewrite /screen_line.
case ef: foldM => [[[nd1 nx] ny]|e] //= [<-].
have [/= ok1 sz n1] : screen_inv (nd1, nx, ny).
  by apply: (foldM_inv (Inv := @screen_inv label)
               (fun s i s' => @screen_point_inv x y name s s' i) _ ef).
case: ltnP => // n0.
rewrite all_rcons ok1 /segment_ok /= sz eqxx -sz andbT /=.
by case: (size nx) n0 n1 => [|[|n]].
Qed.

(** X23.  Every line that [screen_for_elapsed_time] returns has as many
    values as times, and at least two of each. *)
Theorem screen_for_elapsed_time_segments (plot_data out : seq pline) :
  screen_for_elapsed_time plot_data elapsed_time = Ok out ->
  all (@segment_ok label) out.
Proof.
rewrite /screen_for_elapsed_time => h.
exact: (foldM_inv (Inv := fun s => all (@segment_ok label) s)
          (fun s x s' => @screen_line_ok s s' x) _ h).
Qed.

Lemma screen_point_Raise x y name (st : state) i e :
  screen_point elapsed_time x y name st i = Raise e ->
  e = IndexError /\ (size y <= i)%N.
Proof.
case: st => [[nd nx] ny]; rewrite /screen_point.
have low e' : list_getitem 0%Re y i.-1 = Raise e' ->
              e' = IndexError /\ (size y <= i)%N.
  move=> h; have [-> yi] := list_getitem_Raise h; split=> //.
  exact: leq_trans yi (leq_pred i).
case: Rltb => //; case: (_ == _).
- case e0: list_getitem => [y0|e'] /=; last by case=> <-; exact: low e0.
  by case e1: list_getitem => [y1|e'] //= [<-]; exact: list_getitem_Raise e1.
case: Rltb.
- by case e1: list_getitem => [y1|e'] //= [<-]; exact: list_getitem_Raise e1.
case e0: list_getitem => [y0|e'] /=; last by case=> <-; exact: low e0.
by case e1: list_getitem => [y1|e'] //= [<-]; exact: list_getitem_Raise e1.
Qed.

Lemma screen_line_Raise (nd : seq pline) (l : pline) e :
  screen_line elapsed_time nd l = Raise e ->
  e = IndexError /\ (size l.1.2 < size l.1.1)%N.
Proof.
case: l => [[x y] name]; rewrite /screen_line.
case ef: foldM => [[[nd1 nx] ny]|e'] //= [<-].
have [-> /hasP [i]] :=
  foldM_Raise (Q := fun e => e = IndexError) (p := fun i => (size y <= i)%N)
    (fun s i e => @screen_point_Raise x y name s i e) ef.
rewrite mem_iota => /andP [i1 ix] yi; split=> //.
apply: leq_ltn_trans yi _.
case: (size x) ix => [|n]; first by rewrite ltnNge i1.
by rewrite subSS subn0 add1n.
Qed.

(** X24.  The only exception of [screen_for_elapsed_time] is
    [IndexError], and only for a line that has fewer values than
    times. *)
Theorem screen_for_elapsed_time_raises (plot_data : seq pline) (e : exn) :
  screen_for_elapsed_time plot_data elapsed_time = Raise e ->
  e = IndexError
  /\ has (fun l : pline => (size l.1.2 < size l.1.1)%N) plot_data.
Proof.
rewrite /screen_for_elapsed_time => raised.
exact: (foldM_Raise (fun s l e => @screen_line_Raise s l e) raised).
Qed.

Lemma screen_point_shift acc x y name (st : state) i :
  screen_point elapsed_time x y name (shift acc st) i
  = (st' <~ screen_point elapsed_time x y name st i ;; Ok (shift acc st')).
Proof.
case: st => [[nd nx] ny]; rewrite /screen_point /shift /=.
case: Rltb => //; case: (_ == _).
- by case: list_getitem => [y0|e] //=; case: list_getitem => [y1|e] //=.
case: Rltb; first by case: list_getitem => [y1|e] //=.
case: list_getitem => [y0|e] //=; case: list_getitem => [y1|e] //=.
by rewrite rcons_cat.
Qed.

Local Arguments shift : simpl never.

Lemma foldM_shift acc x y name (st : state) l :
  foldM (screen_point elapsed_time x y name) (shift acc st) l
  = (st' <~ foldM (screen_point elapsed_time x y name) st l ;;
     Ok (shift acc st')).
Proof.
elim: l st => [|i l IH] st //.
rewrite !foldM_cons screen_point_shift.
by case: screen_point => [st1|e] //=.
Qed.

Lemma screen_line_shift acc nd (l : pline) :
  screen_line elapsed_time (acc ++ nd) l
  = (o <~ screen_line elapsed_time nd l ;; Ok (acc ++ o)).
Proof.
case: l => [[x y] name]; rewrite /screen_line.
rewrite -[(acc ++ nd, _, _)]/(shift acc (nd, [::], [::])) foldM_shift.
case: foldM => [[[nd1 nx] ny]|e] //=.
by case: ltnP => //; rewrite rcons_cat.
Qed.

Lemma screen_lines_shift acc nd (data : seq pline) :
  foldM (screen_line elapsed_time) (acc ++ nd) data
  = (o <~ foldM (screen_line elapsed_time) nd data ;; Ok (acc ++ o)).
Proof.
elim: data nd => [|l data IH] nd //=.
rewrite screen_line_shift.
by case: screen_line => [nd1|e] //=.
Qed.

(** X25.  [screen_for_elapsed_time] screens each line on its own: the
    result for two lists of lines, one after the other, is the result
    for the first followed by the result for the second, and the call
    raises when one of the two does. *)
Theorem screen_for_elapsed_time_cat (data1 data2 : seq pline) :
  screen_for_elapsed_time (data1 ++ data2) elapsed_time
  = (out1 <~ screen_for_elapsed_time data1 elapsed_time ;;
     out2 <~ screen_for_elapsed_time data2 elapsed_time ;;
     Ok (out1 ++ out2)).
Proof.
rewrite /screen_for_elapsed_time foldM_cat.
case: (foldM _ _ data1) => [out1|e] //=.
by rewrite -[out1 in LHS]cats0 screen_lines_shift.
Qed.

Lemma last_take T (d : T) (s : seq T) j :
  (0 < j <= size s)%N -> last d (take j s) = nth d s j.-1.
Proof.
case/andP => j0 js.
rewrite -nth_last size_take_min; move/minn_idPl: (js) => ->.
by rewrite nth_take // prednK.
Qed.

Lemma screen_points_within (nd : seq pline) x y (name : label) j n :
  (1 < j)%N -> (j + n <= size x)%N -> size x = size y ->
  all (repeat_within elapsed_time x) (iota j n) ->
  foldM (screen_point elapsed_time x y name) (nd, take j x, take j y)
    (iota j n)
  = Ok (nd, take (j + n) x, take (j + n) y).
Proof.
move=> j1 jn sz; elim: n j j1 jn => [|n IH] j j1 jn /=.
  by rewrite addn0.
case/andP => wj wn.
have jx : (j < size x)%N by apply: leq_trans jn; rewrite addnS ltnS leq_addr.
rewrite /screen_point -/(repeat_within elapsed_time x j) wj.
rewrite size_take_min; move/minn_idPl: (ltnW jx) => ->.
have j0 : (0 < j)%N by exact: ltnW.
have -> : (j == 0)%N = false by apply/negbTE; rewrite -lt0n.
have jj : (0 < j <= size x)%N by rewrite j0 ltnW.
rewrite (last_take _ jj).
have -> : Rltb (Rabs (nth 0 x j.-1 - nth 0 x j.-1))%Re (1 / 10000)%Re.
  by apply/Rltb_lt; rewrite Rminus_diag Rabs_R0; lra.
rewrite list_getitem_nth -?sz //= -!take_nth -?sz //.
rewrite -/(screen_point elapsed_time x y name).
by rewrite IH // ?addSnnS // ltnW.
Qed.

Lemma screen_line_within nd (l : pline) :
  all_within elapsed_time l -> screen_line elapsed_time nd l = Ok (rcons nd l).
Proof.
case: l => [[x y] name] /andP [/andP [/= /eqP sz x1]].
rewrite /screen_line.
have -> : iota 1 (size x - 1) = 1%N :: iota 2 (size x - 2).
  by case: (size x) x1 => [|[|n]] //= _; rewrite !subSS !subn0.
rewrite [all _ _]/= => /andP [w1 wn].
rewrite [foldM _ _ _]/= {1}/screen_point -/(repeat_within elapsed_time x 1).
have y0 : (0 < size y)%N by rewrite -sz; exact: ltnW.
have y1 : (1 < size y)%N by rewrite -sz.
rewrite w1 /= !list_getitem_nth //=.
have -> : [:: nth 0%Re x 0; nth 0%Re x 1] = take 2 x.
  by case: (x) x1 => [|a [|b s]] //= _; rewrite take0.
have -> : [:: nth 0%Re y 0; nth 0%Re y 1] = take 2 y.
  by case: (y) y1 => [|a [|b s]] //= _; rewrite take0.
rewrite screen_points_within // ?subnKC //=.
by rewrite take_size sz take_size -sz (ltnW x1).
Qed.

Lemma screen_lines_within acc (data : seq pline) :
  all (all_within elapsed_time) data ->
  foldM (screen_line elapsed_time) acc data = Ok (acc ++ data).
Proof.
elim: data acc => [|l data IH] acc /=; first by rewrite cats0.
by case/andP => wl wd; rewrite screen_line_within //= IH // cat_rcons.
Qed.

(** X26.  Lines that have as many values as times, at least two samples,
    and all successive samples less than [elapsed_time] minutes apart
    pass [screen_for_elapsed_time] unchanged. *)
Theorem screen_for_elapsed_time_within (plot_data : seq pline) :
  all (all_within elapsed_time) plot_data ->
  screen_for_elapsed_time plot_data elapsed_time = Ok plot_data.
Proof.
move=> within; rewrite /screen_for_elapsed_time.
exact: (screen_lines_within [::] within).
Qed.

Lemma screen_points_apart (nd : seq pline) x y (name : label) l :
  ~~ has (repeat_within elapsed_time x) l ->
  foldM (screen_point elapsed_time x y name) (nd, [::], [::]) l
  = Ok (nd, [::], [::]).
Proof.
elim: l => [|i l IH] //=; rewrite negb_or => /andP [wi /IH].
by rewrite /screen_point -/(repeat_within elapsed_time x i) (negbTE wi).
Qed.

(** X27.  When no two successive samples of any line are less than
    [elapsed_time] minutes apart, [screen_for_elapsed_time] returns no
    line at all; a line with a single sample is always dropped. *)
Theorem screen_for_elapsed_time_apart (plot_data : seq pline) :
  ~~ has (fun l : pline =>
            has (repeat_within elapsed_time l.1.1) (iota 1 (size l.1.1 - 1)))
       plot_data ->
  screen_for_elapsed_time plot_data elapsed_time = Ok [::].
Proof.
rewrite /screen_for_elapsed_time.
elim: plot_data => [|[[x y] name] data IH] //=.
rewrite negb_or => /andP [apart /IH {}IH].
by rewrite (screen_points_apart _ _ _ apart).
Qed.

End ScreenForElapsedTimeProperties.

Lemma repeat_lines_within : all (all_within 1%Re) [:: repeat_line].
Proof.
rewrite /= /all_within /segment_ok /= /repeat_within /= !andbT.
by apply/Rltb_lt; lra.
Qed.

Lemma screen_repeat_line :
  screen_for_elapsed_time [:: repeat_line] 1%Re = Ok [:: repeat_line].
Proof. exact: (screen_lines_within [::] repeat_lines_within). Qed.

Lemma screen_short_line :
  screen_for_elapsed_time [:: short_line] 1%Re = Raise IndexError.
Proof.
rewrite /screen_for_elapsed_time /= /screen_point /=.
have -> : Rltb ((1 / 2880 - 0) * 1440)%Re 1%Re by apply/Rltb_lt; lra.
by [].
Qed.

(** X23 on [repeat_line]. *)
Lemma screen_for_elapsed_time_segments_witness :
  all (@segment_ok string) [:: repeat_line].
Proof.
exact: (@screen_for_elapsed_time_segments string 1%Re [:: repeat_line]
          [:: repeat_line] screen_repeat_line).
Defined.

(** X24 on [short_line]. *)
Lemma screen_for_elapsed_time_raises_witness :
  IndexError = IndexError
  /\ has (fun l : plot_line string => (size l.1.2 < size l.1.1)%N)
       [:: short_line].
Proof.
exact: (@screen_for_elapsed_time_raises string 1%Re [:: short_line]
          IndexError screen_short_line).
Defined.

(** X26 on [repeat_line]. *)
Lemma screen_for_elapsed_time_within_witness :
  screen_for_elapsed_time [:: repeat_line] 1%Re = Ok [:: repeat_line].
Proof.
exact: (@screen_for_elapsed_time_within string 1%Re [:: repeat_line]
          repeat_lines_within).
Defined.

(** X27 on [single_line]. *)
Lemma screen_for_elapsed_time_apart_witness :
  screen_for_elapsed_time [:: single_line] 1%Re = Ok [::].
Proof.
exact: (@screen_for_elapsed_time_apart string 1%Re [:: single_line] isT).
Defined.

Section ProcessTaresProperties.

Variable datetime : Type.
Variable date2num : datetime -> R.

Notation Tare := (Tare datetime).
Notation ObsTreeLoop := (ObsTreeLoop datetime).

Lemma nth_cat_size (pre : seq R) v rest :
  nth 0%Re (pre ++ v :: rest) (size pre) = v.
Proof. by rewrite nth_cat ltnn subnn. Qed.

Lemma set_nth_cat_size (pre : seq R) v rest y :
  set_nth 0%Re (pre ++ v :: rest) (size pre) y = pre ++ y :: rest.
Proof. by elim: pre => //= a pre ->. Qed.

Lemma set_nth_same (tr : seq R) idx :
  (idx < size tr)%N -> set_nth 0%Re tr idx (nth 0%Re tr idx) = tr.
Proof. by elim: tr idx => [|a tr IH] [|idx] //= /IH ->. Qed.

Lemma zip_mapr (T U : Type) (f : T -> U) (s : seq T) :
  zip s (map f s) = [seq (t, f t) | t <- s].
Proof. by elim: s => //= t s ->. Qed.

(** A loop that replaces entry [idx] of [tare] by a value [g t old]
    computed from the sample and the old entry. *)
Lemma for_enumerate_zip (body : nat -> R -> tare_stmt) (g : R -> R -> R)
    pre ts vals rest :
  (forall idx t tr, (idx < size tr)%N ->
     body idx t tr = (set_nth 0%Re tr idx (g t (nth 0%Re tr idx)), Ok tt)) ->
  size vals = size ts ->
  for_enumerate body (size pre) ts (pre ++ vals ++ rest)
  = (pre ++ [seq g p.1 p.2 | p <- zip ts vals] ++ rest, Ok tt).
Proof.
move=> bg; elim: ts pre vals => [|t ts IH] pre [|v vals] //= [sz].
have lt : (size pre < size (pre ++ v :: vals ++ rest))%N.
  by rewrite size_cat /= -addSnnS leq_addr.
rewrite (bg _ _ _ lt).
rewrite nth_cat_size set_nth_cat_size -cat_rcons.
by rewrite -(size_rcons pre (g t v)) IH // cat_rcons.
Qed.

Lemma tare_assign_set idx v (tr : seq R) :
  (idx < size tr)%N -> tare_assign idx v tr = (set_nth 0%Re tr idx v, Ok tt).
Proof. by rewrite /tare_assign /list_setitem => ->. Qed.

Lemma tare_add_set idx v (tr : seq R) :
  (idx < size tr)%N ->
  tare_add idx v tr = (set_nth 0%Re tr idx (nth 0%Re tr idx + v)%Re, Ok tt).
Proof.
by move=> it; rewrite /tare_add /list_getitem it tare_assign_set.
Qed.

(** The loop of line 1030 on a list with room for the samples. *)
Lemma clear_tares ts (tare : seq R) :
  (size ts <= size tare)%N ->
  for_enumerate (fun idx _ => tare_assign idx 0%Re) 0 ts tare
  = ([seq 0%Re | t <- ts] ++ drop (size ts) tare, Ok tt).
Proof.
move=> sz.
have sv : size (take (size ts) tare) = size ts by rewrite size_takel.
have bg idx (t : R) tr :
    (idx < size tr)%N ->
    tare_assign idx 0%Re tr
    = (set_nth 0%Re tr idx ((fun _ _ : R => 0%Re) t (nth 0%Re tr idx)), Ok tt).
  exact: tare_assign_set.
rewrite -{1}(cat_take_drop (size ts) tare).
have /= -> :=
  @for_enumerate_zip (fun idx _ => tare_assign idx 0%Re) (fun _ _ => 0%Re)
    [::] _ _ (drop (size ts) tare) bg sv.
congr (_ ++ _, _).
rewrite (@eq_map _ _ _ ((fun=> 0%Re) \o fst)) // map_comp.
by rewrite -/(unzip1 _) unzip1_zip // sv.
Qed.

(** The loop of lines 1036-1038 for one checked tare. *)
Lemma add_tare ts (f : R -> R) dt v rest :
  for_enumerate
    (fun idx t => if Rltb dt t then tare_add idx v
                  else fun tare => (tare, Ok tt)) 0 ts
    ([seq f t | t <- ts] ++ rest)
  = ([seq (if Rltb dt t then f t + v else f t)%Re | t <- ts] ++ rest, Ok tt).
Proof.
have bg idx (t : R) (tr : seq R) :
    (idx < size tr)%N ->
    (if Rltb dt t then tare_add idx v else fun tare => (tare, Ok tt)) tr
    = (set_nth 0%Re tr idx
         ((fun t old => if Rltb dt t then old + v else old)%Re
            t (nth 0%Re tr idx)), Ok tt).
  move=> it; case: Rltb; first exact: tare_add_set.
  by rewrite set_nth_same.
have /= -> :=
  @for_enumerate_zip
    (fun idx t => if Rltb dt t then tare_add idx v
                  else fun tare => (tare, Ok tt))
    (fun t old => if Rltb dt t then old + v else old)%Re
    [::] _ _ rest bg (size_map f ts).
by rewrite zip_mapr -map_comp.
Qed.

Lemma apply_tares_sum ts (tares : seq Tare) (f : R -> R) rest :
  apply_tares date2num ts tares ([seq f t | t <- ts] ++ rest)
  = ([seq (f t + tare_total date2num tares t)%Re | t <- ts] ++ rest, Ok tt).
Proof.
elim: tares f => [|tr tares IH] f /=.
  congr (_ ++ _, _); apply: eq_map => t.
  by rewrite /tare_total big_nil /GRing.zero /=; lra.
case c2: (_ =? _)%Z; last first.
  rewrite IH; congr (_ ++ _, _); apply: eq_map => t.
  by rewrite /tare_total big_cons c2.
rewrite add_tare IH; congr (_ ++ _, _); apply: eq_map => t.
rewrite /tare_total big_cons c2 /=.
by case: Rltb; rewrite /GRing.add /=; lra.
Qed.

Lemma process_station_room (tares : seq Tare) s :
  tare_room s ->
  process_station date2num tares s
  = (mkObsTreeStation
       (station_t s)
       ([seq tare_total date2num tares t | t <- station_t s]
        ++ drop (size (station_t s)) (station_tare s)), Ok tt).
Proof.
move=> room; rewrite /process_station clear_tares // apply_tares_sum.
congr (mkObsTreeStation _ (_ ++ _), _); apply: eq_map => t.
by lra.
Qed.

Lemma process_rows_room (tares : seq Tare) rows :
  all tare_room rows ->
  process_rows date2num tares rows
  = ([seq mkObsTreeStation
            (station_t s)
            ([seq tare_total date2num tares t | t <- station_t s]
             ++ drop (size (station_t s)) (station_tare s))
     | s <- rows], Ok tt).
Proof.
elim: rows => [|s rows IH] //= /andP [room /IH ->].
by rewrite process_station_room.
Qed.

(** X28.  On a loop whose stations have a [tare] entry for each sample,
    [process_tares] returns and sets the entry of each sample to the sum
    of the checked tares (check state 2) that lie before the time of the
    sample: the old entries do not count, unchecked tares do not count,
    and entries beyond the samples, the times and the tares themselves
    are left as they were. *)
Theorem process_tares_total (obstreeloop : ObsTreeLoop) :
  all tare_room (loop_children obstreeloop) ->
  process_tares date2num obstreeloop
  = (mkObsTreeLoop
       [seq mkObsTreeStation
              (station_t s)
              ([seq tare_total date2num (loop_tares obstreeloop) t
               | t <- station_t s]
               ++ drop (size (station_t s)) (station_tare s))
       | s <- loop_children obstreeloop]
       (loop_tares obstreeloop), Ok tt).
Proof. by move=> room; rewrite /process_tares process_rows_room. Qed.

Lemma for_enumerate_cat (body : nat -> R -> tare_stmt) k ts1 ts2 tare :
  for_enumerate body k (ts1 ++ ts2) tare
  = match for_enumerate body k ts1 tare with
    | (tare', Ok _) => for_enumerate body (k + size ts1) ts2 tare'
    | (tare', Raise e) => (tare', Raise e)
    end.
Proof.
elim: ts1 k tare => [|t ts1 IH] k tare /=; first by rewrite addn0.
case: (body k t tare) => tare' [_|e] //.
by rewrite IH addSnnS.
Qed.

Lemma map_const_size (T U V : Type) (c : V) (s1 : seq T) (s2 : seq U) :
  size s1 = size s2 -> [seq c | _ <- s1] = [seq c | _ <- s2].
Proof. by elim: s1 s2 => [|a s1 IH] [|b s2] //= [/IH ->]. Qed.

(** The loop of line 1030 on a list that is shorter than the samples:
    every entry is cleared before the assignment fails. *)
Lemma clear_tares_short ts (tare : seq R) :
  (size tare < size ts)%N ->
  for_enumerate (fun idx _ => tare_assign idx 0%Re) 0 ts tare
  = ([seq 0%Re | v <- tare], Raise IndexError).
Proof.
move=> sz; rewrite -(cat_take_drop (size tare) ts) for_enumerate_cat.
have st : size (take (size tare) ts) = size tare by rewrite size_takel // ltnW.
have le : (size (take (size tare) ts) <= size tare)%N by rewrite st.
rewrite (clear_tares le) st drop_size cats0 add0n.
have -> : [seq 0%Re | _ <- take (size tare) ts] = [seq 0%Re | _ <- tare].
  exact: map_const_size.
case ed: (drop (size tare) ts) => [|t ts2] /=.
  move: (congr1 size ed); rewrite size_drop /= => /eqP.
  by rewrite subn_eq0 leqNgt sz.
by rewrite /tare_assign /list_setitem size_map ltnn.
Qed.

Lemma process_station_short (tares : seq Tare) s :
  ~~ tare_room s ->
  process_station date2num tares s
  = (mkObsTreeStation (station_t s) [seq 0%Re | v <- station_tare s],
     Raise IndexError).
Proof.
rewrite /tare_room -ltnNge => short.
by rewrite /process_station clear_tares_short.
Qed.

(** X29.  When a station has fewer [tare] entries than samples,
    [process_tares] raises [IndexError] at the first such station, after
    it cleared all the entries of that station: the stations before it
    have their tares applied, the stations after it are left as they
    were. *)
Theorem process_tares_IndexError (obstreeloop : ObsTreeLoop) s1 s s2 :
  loop_children obstreeloop = s1 ++ s :: s2 ->
  all tare_room s1 -> ~~ tare_room s ->
  process_tares date2num obstreeloop
  = (mkObsTreeLoop
       ([seq mkObsTreeStation
               (station_t s')
               ([seq tare_total date2num (loop_tares obstreeloop) t
                | t <- station_t s']
                ++ drop (size (station_t s')) (station_tare s'))
        | s' <- s1]
        ++ mkObsTreeStation (station_t s) [seq 0%Re | v <- station_tare s]
        :: s2)
       (loop_tares obstreeloop), Raise IndexError).
Proof.
move=> ec room short; rewrite /process_tares ec.
elim: s1 room {ec} => [|s' s1 IH] /=.
  by move=> _; rewrite process_station_short.
case/andP => room' /IH {}IH.
rewrite process_station_room //.
by move: IH; case: process_rows => rows res [-> ->].
Qed.

(** X30.  [process_tares] clears the old tares before it applies the
    checked ones, so on a loop whose stations have a [tare] entry for
    each sample a second call changes nothing. *)
Theorem process_tares_idempotent (obstreeloop : ObsTreeLoop) :
  all tare_room (loop_children obstreeloop) ->
  process_tares date2num (process_tares date2num obstreeloop).1
  = process_tares date2num obstreeloop.
Proof.
move=> room; rewrite /process_tares.
rewrite (process_rows_room (loop_tares obstreeloop) room) /=.
have room' :
    all tare_room
      [seq mkObsTreeStation
             (station_t s)
             ([seq tare_total date2num (loop_tares obstreeloop) t
              | t <- station_t s]
              ++ drop (size (station_t s)) (station_tare s))
      | s <- loop_children obstreeloop].
  rewrite all_map; apply: sub_all room => s.
  rewrite /tare_room /= size_cat size_map size_drop => le.
  by rewrite leq_addr.
rewrite (process_rows_room (loop_tares obstreeloop) room') /=.
congr (mkObsTreeLoop _ _, _); rewrite -map_comp; apply: eq_map => s /=.
by rewrite drop_size_cat // size_map.
Qed.

End ProcessTaresProperties.

(** X28 on a loop with two samples and two entries. *)
Lemma process_tares_total_witness :
  let l := tared_loop [:: 9; 9]%Re in
  process_tares id l
  = (mkObsTreeLoop
       [seq mkObsTreeStation
              (station_t s)
              ([seq tare_total id (loop_tares l) t | t <- station_t s]
               ++ drop (size (station_t s)) (station_tare s))
       | s <- loop_children l]
       (loop_tares l), Ok tt).
Proof.
exact: (@process_tares_total R id (tared_loop [:: 9; 9]%Re) isT).
Defined.

(** X29 on a loop with two samples and one entry. *)
Lemma process_tares_IndexError_witness :
  let l := tared_loop [:: 9%Re] in
  process_tares id l
  = (mkObsTreeLoop
       [:: mkObsTreeStation [:: 1; 3]%Re [:: 0%Re]] (loop_tares l),
     Raise IndexError).
Proof.
exact: (@process_tares_IndexError R id (tared_loop [:: 9%Re]) [::]
          (mkObsTreeStation [:: 1; 3]%Re [:: 9%Re]) [::] erefl isT isT).
Defined.

(** X30 on a loop with two samples and two entries. *)
Lemma process_tares_idempotent_witness :
  let l := tared_loop [:: 9; 9]%Re in
  process_tares id (process_tares id l).1 = process_tares id l.
Proof.
exact: (@process_tares_idempotent R id (tared_loop [:: 9; 9]%Re) isT).
Defined.
